(** * pluto_source_c: the ring buffer between the PlutoSDR callback and work()

    A shallow embedding of [lib/pluto/pluto_source_c.cc]: the constructor's
    buffer configuration, the driver callback that fills the ring of raw
    blocks, and the [work] call that drains it through the 16-bit to float
    converter.  Machine integers are [Z] with the wrap-around of their C type
    written out, raw memory is a list of bytes, [float] is IEEE binary32
    (precision 24, emax 128) over [SpecFloat]. *)

From Stdlib Require Import ZArith QArith Lia List SpecFloat.
From Stdlib Require Import Strings.Byte.
From stdpp Require Import base option list gmap strings pretty.

Open Scope Z_scope.

(** ** Machine integers *)

Module CInt.

(** [unsigned int]: arithmetic modulo 2^32. *)
Definition uint32 (z : Z) : Z := z mod 2 ^ 32.

(** [int]: conversion to the two's complement 32-bit range; signed
    arithmetic that leaves the range is taken to wrap. *)
Definition int32 (z : Z) : Z := (z + 2 ^ 31) mod 2 ^ 32 - 2 ^ 31.

(** [short]: the 16-bit two's complement reading of a 16-bit pattern. *)
Definition int16 (z : Z) : Z := (z + 2 ^ 15) mod 2 ^ 16 - 2 ^ 15.

Definition in_uint32 (z : Z) : Prop := 0 <= z < 2 ^ 32.
Definition in_int32 (z : Z) : Prop := - 2 ^ 31 <= z < 2 ^ 31.

End CInt.
Export CInt.

(** ** IEEE binary32 *)

Module Float32.

Definition prec : Z := 24.
Definition emax : Z := 128.

Definition float32 : Type := spec_float.

(** Conversion of an integer to [float] (round to nearest even). *)
Definition of_Z (z : Z) : float32 := binary_normalize prec emax z 0 false.

Definition div : float32 -> float32 -> float32 := SFdiv prec emax.
Definition sub : float32 -> float32 -> float32 := SFsub prec emax.

(** The literal [127.4f]: bit pattern 0x42FECCCD. *)
Definition lit_127_4 : float32 := S754_finite false 16698573 (-17).

(** The rational number a finite float denotes. *)
Definition value (x : float32) : option Q :=
  match x with
  | S754_zero _ => Some 0%Q
  | S754_finite s m e =>
      Some (inject_Z (cond_Zopp s (Zpos m)) * Qpower 2 e)%Q
  | S754_infinity _ | S754_nan => None
  end.

(** [denotes x q]: [x] is finite and its value is the rational [q]. *)
Definition denotes (x : float32) (q : Q) : Prop :=
  exists v, value x = Some v /\ (v == q)%Q.

Definition denotesb (x : float32) (q : Q) : bool :=
  match value x with
  | Some v => Qeq_bool v q
  | None => false
  end.

End Float32.
Export Float32(float32).

(** [gr_complex] is [std::complex<float>]: real part, then imaginary part. *)
Definition gr_complex : Type := float32 * float32.

(** ** Raw memory: reading 16-bit samples *)

Definition byte_to_Z (b : byte) : Z := Z.of_N (Byte.to_N b).

(** The [short] stored in two consecutive bytes (little-endian host). *)
Definition short_of_bytes (lo hi : byte) : Z :=
  int16 (byte_to_Z lo + 256 * byte_to_Z hi).

(** [((short * )mem)[i]]; reading past the end of the block is undefined. *)
Definition read_short (mem : list byte) (i : nat) : option Z :=
  lo ← mem !! (2 * i)%nat;
  hi ← mem !! (2 * i + 1)%nat;
  Some (short_of_bytes lo hi).

(** All the shorts held in a run of bytes (a trailing odd byte holds none). *)
Fixpoint shorts_of_bytes (bs : list byte) : list Z :=
  match bs with
  | lo :: hi :: rest => short_of_bytes lo hi :: shorts_of_bytes rest
  | _ => []
  end.

(** [memcpy(dst, src, len)] with [len = length src]: the first [len] bytes of
    the destination block are overwritten; writing past its end is
    undefined. *)
Definition memcpy (dst src : list byte) : option (list byte) :=
  if (length src <=? length dst)%nat
  then Some (src ++ drop (length src) dst)
  else None.

(** ** The VOLK kernel used by [work] *)

(** One output point of [volk_16i_s32f_convert_32f]:
    [(float)in / scalar]. *)
Definition convert_point (scalar : float32) (x : Z) : float32 :=
  Float32.div (Float32.of_Z x) scalar.

(** [volk_16i_s32f_convert_32f(out, in, scalar, num_points)] where [in]
    points [base] shorts into the block [mem]; the result is the
    [num_points] floats written to [out]. *)
Definition volk_16i_s32f_convert_32f
    (mem : list byte) (base : Z) (scalar : float32) (num_points : Z)
  : option (list float32) :=
  mapM (fun i => convert_point scalar <$> read_short mem (Z.to_nat base + i))
       (seq 0 (Z.to_nat num_points)).

(** The [(gr_complex * )] view of a run of floats. *)
Fixpoint complex_view (fs : list float32) : list gr_complex :=
  match fs with
  | re :: im :: rest => (re, im) :: complex_view rest
  | _ => []
  end.

(** ** The block object *)

Definition BUF_LEN : Z := 512 * 16 * 100.
Definition BUF_NUM : Z := 15.
Definition BUF_SKIP : Z := 1.
Definition BYTES_PER_SAMPLE : Z := 4.

(** [gr::block::WORK_DONE]. *)
Definition WORK_DONE : Z := -1.

(** The members of [pluto_source_c] that the buffer protocol uses, and
    [cerr], the text the object has written to [std::cerr].  The unsigned
    members are [_buf_num], [_buf_len], [_buf_head], [_buf_used],
    [_buf_offset] and [_skipped]; [_samp_avail] is an [int]. *)
Record pluto_source_c : Type := Build_pluto_source_c {
  _buf : list (list byte);
  _buf_num : Z;
  _buf_len : Z;
  _buf_head : Z;
  _buf_used : Z;
  _buf_offset : Z;
  _samp_avail : Z;
  _running : bool;
  _skipped : Z;
  _lut : list float32;
  cerr : string
}.

Definition set_buf (v : list (list byte)) (s : pluto_source_c) :=
  Build_pluto_source_c v (_buf_num s) (_buf_len s) (_buf_head s) (_buf_used s)
    (_buf_offset s) (_samp_avail s) (_running s) (_skipped s) (_lut s) (cerr s).

Definition set_buf_head (v : Z) (s : pluto_source_c) :=
  Build_pluto_source_c (_buf s) (_buf_num s) (_buf_len s) v (_buf_used s)
    (_buf_offset s) (_samp_avail s) (_running s) (_skipped s) (_lut s) (cerr s).

Definition set_buf_used (v : Z) (s : pluto_source_c) :=
  Build_pluto_source_c (_buf s) (_buf_num s) (_buf_len s) (_buf_head s) v
    (_buf_offset s) (_samp_avail s) (_running s) (_skipped s) (_lut s) (cerr s).

Definition set_buf_offset (v : Z) (s : pluto_source_c) :=
  Build_pluto_source_c (_buf s) (_buf_num s) (_buf_len s) (_buf_head s)
    (_buf_used s) v (_samp_avail s) (_running s) (_skipped s) (_lut s) (cerr s).

Definition set_samp_avail (v : Z) (s : pluto_source_c) :=
  Build_pluto_source_c (_buf s) (_buf_num s) (_buf_len s) (_buf_head s)
    (_buf_used s) (_buf_offset s) v (_running s) (_skipped s) (_lut s) (cerr s).

Definition set_running (v : bool) (s : pluto_source_c) :=
  Build_pluto_source_c (_buf s) (_buf_num s) (_buf_len s) (_buf_head s)
    (_buf_used s) (_buf_offset s) (_samp_avail s) v (_skipped s) (_lut s) (cerr s).

Definition set_skipped (v : Z) (s : pluto_source_c) :=
  Build_pluto_source_c (_buf s) (_buf_num s) (_buf_len s) (_buf_head s)
    (_buf_used s) (_buf_offset s) (_samp_avail s) (_running s) v (_lut s) (cerr s).

Definition set_lut (v : list float32) (s : pluto_source_c) :=
  Build_pluto_source_c (_buf s) (_buf_num s) (_buf_len s) (_buf_head s)
    (_buf_used s) (_buf_offset s) (_samp_avail s) (_running s) (_skipped s) v (cerr s).

(** [std::cerr << text]. *)
Definition print (text : string) (s : pluto_source_c) :=
  Build_pluto_source_c (_buf s) (_buf_num s) (_buf_len s) (_buf_head s)
    (_buf_used s) (_buf_offset s) (_samp_avail s) (_running s) (_skipped s)
    (_lut s) (cerr s +:+ text).

Definition endl : string := String (Ascii.ascii_of_nat 10) EmptyString.

(** ** The constructor *)

(** Entry [i] of the lookup table: [(i - 127.4f) / 128.0f]. *)
Definition lut_entry (i : nat) : float32 :=
  Float32.div (Float32.sub (Float32.of_Z (Z.of_nat i)) Float32.lit_127_4)
              (Float32.of_Z 128).

(** The slots are obtained from [malloc]; their initial content is never
    relied upon and is taken to be zero bytes.  Allocation is assumed to
    succeed. *)
Definition alloc_slots (buf_num buf_len : Z) : list (list byte) :=
  replicate (Z.to_nat buf_num) (replicate (Z.to_nat buf_len) x00).

Section Constructor.

(** [boost::lexical_cast< unsigned int >]: [None] when it throws. *)
Variable lexical_cast : string -> option Z.

(** [if (dict.count(key)) member = lexical_cast(dict[key])], the member
    having been zeroed before. *)
Definition dict_uint (dict : gmap string string) (key : string) : option Z :=
  match dict !! key with
  | Some v => lexical_cast v
  | None => Some 0
  end.

(** [pluto_source_c::pluto_source_c], given [dict = params_to_dict(args)]
    and the status [open_ret] returned by [plutosdr_open]; [None] when the
    constructor throws. *)
Definition pluto_source_c_ctor (dict : gmap string string) (open_ret : Z)
  : option pluto_source_c :=
  buf_num ← dict_uint dict "buffers";
  buf_len ← dict_uint dict "buflen";
  let buf_num := if 0 =? buf_num then BUF_NUM else buf_num in
  let buf_len :=
    if (0 =? buf_len) || negb (buf_len mod 512 =? 0) then BUF_LEN else buf_len in
  let report :=
    if negb (BUF_NUM =? buf_num) || negb (BUF_LEN =? buf_len)
    then "Using " +:+ pretty buf_num +:+ " buffers of size "
         +:+ pretty buf_len +:+ "." +:+ endl
    else EmptyString in
  if open_ret <? 0 then None
  else Some {|
    _buf := alloc_slots buf_num buf_len;
    _buf_num := buf_num;
    _buf_len := buf_len;
    _buf_head := 0;
    _buf_used := 0;
    _buf_offset := 0;
    _samp_avail := int32 (buf_len / BYTES_PER_SAMPLE);
    _running := false;
    _skipped := 0;
    _lut := map lut_entry (seq 0 256);
    cerr := "Using device #0" +:+ endl +:+ report
  |}.

End Constructor.

(** A plain decimal reader, used to run the constructor on examples: digits
    only, and the value must fit an [unsigned int]. *)
Definition digit_of (c : Ascii.ascii) : option Z :=
  let n := Z.of_nat (Ascii.nat_of_ascii c) in
  if (48 <=? n) && (n <=? 57) then Some (n - 48) else None.

Fixpoint decimal_digits (acc : Z) (v : string) : option Z :=
  match v with
  | EmptyString => Some acc
  | String c rest => d ← digit_of c; decimal_digits (10 * acc + d) rest
  end.

Definition decimal_uint (v : string) : option Z :=
  match v with
  | EmptyString => None
  | _ => z ← decimal_digits 0 v; if z <? 2 ^ 32 then Some z else None
  end.

(** ** start, stop and the end of the acquisition loop *)

(** [pluto_source_c::start]: sets the flag (and spawns the acquisition
    thread, which lives outside this record). *)
Definition start (s : pluto_source_c) : bool * pluto_source_c :=
  (true, set_running true s).

(** [pluto_source_c::stop]: clears the flag (then cancels the asynchronous
    read and joins the thread). *)
Definition stop (s : pluto_source_c) : bool * pluto_source_c :=
  (true, set_running false s).

(** [pluto_source_c::plutosdr_wait] from the point where
    [plutosdr_read_async] has returned [ret]. *)
Definition plutosdr_wait (ret : Z) (s : pluto_source_c) : pluto_source_c :=
  let s := set_running false s in
  if negb (ret =? 0)
  then print ("rtlsdr_read_async returned with " +:+ pretty ret +:+ endl) s
  else s.

(** ** The driver callback *)

(** The part of [plutosdr_callback] that runs under [_buf_mutex]: store the
    delivered block at the tail, then either drop the oldest block or count
    the new one.  [%] by zero and an access outside [_buf] are undefined.
    The [notify_one] that follows changes no member. *)
Definition plutosdr_callback_push (buf : list byte) (s : pluto_source_c)
  : option pluto_source_c :=
  if _buf_num s =? 0 then None
  else
    let buf_tail := int32 (uint32 (_buf_head s + _buf_used s) mod _buf_num s) in
    if buf_tail <? 0 then None
    else
      slot ← _buf s !! Z.to_nat buf_tail;
      slot' ← memcpy slot buf;
      let s := set_buf (<[Z.to_nat buf_tail := slot']> (_buf s)) s in
      if _buf_used s =? _buf_num s
      then
        let s := print "O" s in
        Some (set_buf_head (uint32 (_buf_head s + 1) mod _buf_num s) s)
      else Some (set_buf_used (uint32 (_buf_used s + 1)) s).

(** [pluto_source_c::plutosdr_callback(buf, len)], [len] being the length of
    the delivered block. *)
Definition plutosdr_callback (buf : list byte) (s : pluto_source_c)
  : option pluto_source_c :=
  if _skipped s <? BUF_SKIP
  then Some (set_skipped (uint32 (_skipped s + 1)) s)
  else plutosdr_callback_push buf s.

(** ** work *)

(** [const float scaling = 2048.0f]. *)
Definition scaling : float32 := Float32.of_Z 2048.

(** How a [work] call ends: suspended in [_buf_cond.wait( lock )], or
    returned with a value and the floats written to [output_items[0]]. *)
Inductive work_return : Type :=
| Blocked
| Returned (ret : Z) (out : list float32).

(** The loop [while (noutput_items && _buf_used)].  [nitems] is
    [out - (gr_complex * )output_items[0]] and [out] the floats written so
    far.  Every iteration but the last releases a block, so on a
    well-formed object [fuel] above [_buf_used] is never exhausted.  [%] by
    zero is undefined. *)
Fixpoint work_loop (fuel : nat) (noutput_items nitems : Z) (out : list float32)
    (s : pluto_source_c) : option (Z * list float32 * pluto_source_c) :=
  if negb (noutput_items =? 0) && negb (_buf_used s =? 0) then
    match fuel with
    | O => None
    | S fuel =>
        let nout := Z.min noutput_items (_samp_avail s) in
        slot ← _buf s !! Z.to_nat (_buf_head s);
        conv ← volk_16i_s32f_convert_32f
                 slot (uint32 (_buf_offset s * 2)) scaling (uint32 (2 * nout));
        let out := out ++ conv in
        let nitems := nitems + nout in
        let noutput_items := int32 (noutput_items - nout) in
        let s := set_samp_avail (int32 (_samp_avail s - nout)) s in
        s ← (if _samp_avail s =? 0 then
               if _buf_num s =? 0 then None
               else
                 let s := set_buf_head (uint32 (_buf_head s + 1) mod _buf_num s) s in
                 let s := set_buf_used (uint32 (_buf_used s - 1)) s in
                 let s := set_samp_avail (int32 (_buf_len s / BYTES_PER_SAMPLE)) s in
                 Some (set_buf_offset 0 s)
             else Some (set_buf_offset (uint32 (_buf_offset s + nout)) s));
        work_loop fuel noutput_items nitems out s
    end
  else Some (nitems, out, s).

(** [pluto_source_c::work(noutput_items, input_items, output_items)]. *)
Definition work (noutput_items : Z) (s : pluto_source_c)
  : option (work_return * pluto_source_c) :=
  if (_buf_used s <? 3) && _running s then Some (Blocked, s)
  else if negb (_running s) then Some (Returned WORK_DONE [], s)
  else
    '(nitems, out, s) ← work_loop (S (Z.to_nat (_buf_used s))) noutput_items 0 [] s;
    Some (Returned (int32 nitems) out, s).

(** ** Interleavings of the two threads

    The scheduler's calls, the driver's callback deliveries and the end of
    the asynchronous read, taken as atomic events in the order in which they
    take effect.  A [work] call that finds the wait condition true stays
    suspended: it leaves the object unchanged and writes nothing. *)

Inductive event : Type :=
| Ev_start
| Ev_stop
| Ev_read_async_return (ret : Z)
| Ev_callback (buf : list byte)
| Ev_work (noutput_items : Z).

(** What an observer of a run counts: blocks pushed into the ring, blocks
    dropped by overflow, samples returned by [work], and the floats
    written. *)
Record tally : Type := Build_tally {
  pushed : Z;
  dropped : Z;
  produced : Z;
  emitted : list float32
}.

Definition tally0 : tally := Build_tally 0 0 0 [].

Definition count_push (overflow : bool) (t : tally) : tally :=
  Build_tally (pushed t + 1) (if overflow then dropped t + 1 else dropped t)
              (produced t) (emitted t).

Definition count_work (r : work_return) (t : tally) : tally :=
  match r with
  | Blocked => t
  | Returned ret out =>
      Build_tally (pushed t) (dropped t)
                  (if ret <? 0 then produced t else produced t + ret)
                  (emitted t ++ out)
  end.

Definition step (ev : event) (st : pluto_source_c * tally)
  : option (pluto_source_c * tally) :=
  let '(s, t) := st in
  match ev with
  | Ev_start => Some ((start s).2, t)
  | Ev_stop => Some ((stop s).2, t)
  | Ev_read_async_return ret => Some (plutosdr_wait ret s, t)
  | Ev_callback buf =>
      s' ← plutosdr_callback buf s;
      Some (s', if _skipped s <? BUF_SKIP then t
                else count_push (_buf_used s =? _buf_num s) t)
  | Ev_work n =>
      '(r, s') ← work n s;
      Some (s', count_work r t)
  end.

Fixpoint run (evs : list event) (st : pluto_source_c * tally)
  : option (pluto_source_c * tally) :=
  match evs with
  | [] => Some st
  | ev :: evs => st' ← step ev st; run evs st'
  end.

(** An event the environment may raise on [s]: a delivered block fits a slot
    (the driver is started with [_buf_len]), a request is not negative. *)
Definition admissible (s : pluto_source_c) (ev : event) : Prop :=
  match ev with
  | Ev_callback buf => Z.of_nat (length buf) <= _buf_len s
  | Ev_work n => 0 <= n < 2 ^ 31
  | _ => True
  end.

(** A run of deliveries only. *)
Fixpoint deliver (bufs : list (list byte)) (s : pluto_source_c)
  : option pluto_source_c :=
  match bufs with
  | [] => Some s
  | buf :: bufs => s' ← plutosdr_callback buf s; deliver bufs s'
  end.

(** A run of pushes only. *)
Fixpoint push_all (bufs : list (list byte)) (s : pluto_source_c)
  : option pluto_source_c :=
  match bufs with
  | [] => Some s
  | buf :: bufs => s' ← plutosdr_callback_push buf s; push_all bufs s'
  end.

(** ** Invariants *)

(** The invariant of the specification: consumer cursor and ring counters. *)
Definition ring_invariant (s : pluto_source_c) : Prop :=
  _samp_avail s + _buf_offset s = _buf_len s / BYTES_PER_SAMPLE
  /\ 0 <= _buf_used s <= _buf_num s
  /\ 0 <= _buf_head s < _buf_num s.

(** What holds of every object the constructor built and the two threads
    have used: the invariant above, the shape of the allocation and the
    ranges of the members. *)
Record well_formed (s : pluto_source_c) : Prop := Build_well_formed {
  wf_num : 0 < _buf_num s <= 2 ^ 31;
  wf_len : 0 < _buf_len s < 2 ^ 32;
  wf_len_512 : _buf_len s mod 512 = 0;
  wf_slots : Z.of_nat (length (_buf s)) = _buf_num s;
  wf_slot_len : Forall (fun b => Z.of_nat (length b) = _buf_len s) (_buf s);
  wf_head : 0 <= _buf_head s < _buf_num s;
  wf_used : 0 <= _buf_used s <= _buf_num s;
  wf_avail : 0 < _samp_avail s;
  wf_offset : 0 <= _buf_offset s;
  wf_cursor : _samp_avail s + _buf_offset s = _buf_len s / BYTES_PER_SAMPLE;
  wf_idle : _buf_used s = 0 -> _buf_offset s = 0;
  wf_skipped : 0 <= _skipped s <= BUF_SKIP
}.

(** ** The ring as a queue *)

(** The slot holding the [i]-th oldest unread block. *)
Definition slot_index (s : pluto_source_c) (i : nat) : nat :=
  Z.to_nat ((_buf_head s + Z.of_nat i) mod _buf_num s).

(** The unread blocks, oldest first. *)
Definition filled_blocks (s : pluto_source_c) : list (list byte) :=
  map (fun i => _buf s !!! slot_index s i) (seq 0 (Z.to_nat (_buf_used s))).

(** The bytes [work] has still to convert, in delivery order. *)
Definition pending_bytes (s : pluto_source_c) : list byte :=
  drop (Z.to_nat (4 * _buf_offset s)) (concat (filled_blocks s)).

(** The floats the converter makes of a run of raw bytes. *)
Definition convert_bytes (bs : list byte) : list float32 :=
  map (convert_point scaling) (shorts_of_bytes bs).

(** Number of complex samples still buffered. *)
Definition samples_buffered (s : pluto_source_c) : Z :=
  if _buf_used s =? 0 then 0
  else _samp_avail s + (_buf_used s - 1) * (_buf_len s / BYTES_PER_SAMPLE).

(** Two objects that differ at most in the lookup table. *)
Definition lut_equiv (s1 s2 : pluto_source_c) : Prop :=
  set_lut [] s1 = set_lut [] s2.

(** [work n s] signals end-of-stream. *)
Definition signals_done (n : Z) (s : pluto_source_c) : Prop :=
  exists s', work n s = Some (Returned WORK_DONE [], s').

(** [work n s] suspends the caller. *)
Definition blocks (n : Z) (s : pluto_source_c) : Prop :=
  work n s = Some (Blocked, s).

(** ** Exhaustive checks over 16-bit codes *)



(** The slot the callback writes, and what it holds afterwards. *)
Definition tail_index (s : pluto_source_c) : Z :=
  (_buf_head s + _buf_used s) mod _buf_num s.

Definition stored (buf : list byte) (s : pluto_source_c) : list byte :=
  buf ++ drop (length buf) (_buf s !!! Z.to_nat (tail_index s)).

Definition after_store (buf : list byte) (s : pluto_source_c) : pluto_source_c :=
  set_buf (<[Z.to_nat (tail_index s) := stored buf s]> (_buf s)) s.

(** The object after [work] has released the block at the head: the
    [advance()] of the specification. *)
Definition advance (s : pluto_source_c) : pluto_source_c :=
  set_buf_offset 0
    (set_samp_avail (_buf_len s / BYTES_PER_SAMPLE)
       (set_buf_used (_buf_used s - 1)
          (set_buf_head ((_buf_head s + 1) mod _buf_num s) s))).

(** The object after [work] has taken [nout] samples of the block at the
    head without exhausting it. *)
Definition consume (nout : Z) (s : pluto_source_c) : pluto_source_c :=
  set_buf_offset (_buf_offset s + nout) (set_samp_avail (_samp_avail s - nout) s).

(** The object after one iteration of the loop of [work]. *)
Definition after_chunk (nout : Z) (s : pluto_source_c) : pluto_source_c :=
  if _samp_avail s - nout =? 0 then advance s else consume nout s.

(** What [work] leaves untouched. *)
Definition same_ring_storage (s s' : pluto_source_c) : Prop :=
  _buf s' = _buf s /\ _buf_num s' = _buf_num s /\ _buf_len s' = _buf_len s
  /\ _running s' = _running s /\ _skipped s' = _skipped s
  /\ _lut s' = _lut s /\ cerr s' = cerr s.

(** Samples returned and samples still buffered add up to the blocks that
    were pushed and not dropped. *)
Definition balanced (s : pluto_source_c) (t : tally) : Prop :=
  produced t + samples_buffered s
  = (pushed t - dropped t) * (_buf_len s / BYTES_PER_SAMPLE)
  /\ Z.of_nat (length (emitted t)) = 2 * produced t
  /\ 0 <= dropped t <= pushed t.

(** Boolean forms, to run the invariants on concrete objects. *)
Definition well_formedb (s : pluto_source_c) : bool :=
  (0 <? _buf_num s) && (_buf_num s <=? 2 ^ 31)
  && (0 <? _buf_len s) && (_buf_len s <? 2 ^ 32)
  && (_buf_len s mod 512 =? 0)
  && (Z.of_nat (length (_buf s)) =? _buf_num s)
  && forallb (fun b => Z.of_nat (length b) =? _buf_len s) (_buf s)
  && (0 <=? _buf_head s) && (_buf_head s <? _buf_num s)
  && (0 <=? _buf_used s) && (_buf_used s <=? _buf_num s)
  && (0 <? _samp_avail s) && (0 <=? _buf_offset s)
  && (_samp_avail s + _buf_offset s =? _buf_len s / BYTES_PER_SAMPLE)
  && (negb (_buf_used s =? 0) || (_buf_offset s =? 0))
  && (0 <=? _skipped s) && (_skipped s <=? BUF_SKIP).

Definition admissibleb (s : pluto_source_c) (ev : event) : bool :=
  match ev with
  | Ev_callback buf => Z.of_nat (length buf) <=? _buf_len s
  | Ev_work n => (0 <=? n) && (n <? 2 ^ 31)
  | _ => true
  end.

(** A small configuration to run: four slots of 512 bytes. *)
Definition example_dict : gmap string string :=
  {[ "buffers" := "4"; "buflen" := "512" ]}.

Definition example_block (b : byte) : list byte := replicate 512 b.

Definition example_fresh : pluto_source_c := {|
  _buf := alloc_slots 4 512;
  _buf_num := 4;
  _buf_len := 512;
  _buf_head := 0;
  _buf_used := 0;
  _buf_offset := 0;
  _samp_avail := 128;
  _running := false;
  _skipped := 0;
  _lut := map lut_entry (seq 0 256);
  cerr := "Using device #0" +:+ endl +:+ "Using 4 buffers of size 512." +:+ endl
|}.

(** Started, first delivery skipped, three blocks pushed. *)
Definition example_events : list event :=
  [Ev_start; Ev_callback (example_block x00); Ev_callback (example_block x01);
   Ev_callback (example_block x02); Ev_callback (example_block x03)].

Definition state_after (evs : list event) (s : pluto_source_c) : pluto_source_c :=
  match run evs (s, tally0) with
  | Some (s', _) => s'
  | None => s
  end.

Definition example_primed : pluto_source_c :=
  state_after example_events example_fresh.

(** Stopped with three unread blocks in the ring. *)
Definition example_stopped : pluto_source_c :=
  state_after (example_events ++ [Ev_stop]) example_fresh.

(** Two of the three blocks drained by a first call of [work]. *)
Definition example_drained : pluto_source_c :=
  state_after (example_events ++ [Ev_work 256]) example_fresh.

Ltac by_computation := vm_compute; reflexivity.

(** ** Further members and observations *)

(** [pluto_source_c::get_devices], [device_count] being what the driver's
    [plutosdr_get_device_count] returns: one argument string per index. *)
Definition get_devices (device_count : Z) : list string :=
  map (fun i => "pluto=" +:+ pretty (Z.of_nat i)) (seq 0 (Z.to_nat device_count)).

(** The overflow marks written by [n] overflowing pushes. *)
Fixpoint overflow_marks (n : nat) : string :=
  match n with
  | O => EmptyString
  | S n => overflow_marks n +:+ "O"
  end.

(** The last [n] elements of a list. *)
Definition latest {A} (n : nat) (l : list A) : list A :=
  drop (length l - n) l.

Definition is_start (ev : event) : bool :=
  match ev with Ev_start => true | _ => false end.

Definition is_callback (ev : event) : bool :=
  match ev with Ev_callback _ => true | _ => false end.

(** Number of deliveries in a run. *)
Fixpoint deliveries (evs : list event) : Z :=
  match evs with
  | [] => 0
  | ev :: evs => (if is_callback ev then 1 else 0) + deliveries evs
  end.

(** The exact value of table entry [i]: [(i - 16698573/131072) / 128]. *)
Definition lut_value (i : nat) : Q :=
  (Z.of_nat i * 131072 - 16698573) # 16777216.

Definition lut_exact_at (i : nat) : bool :=
  Float32.denotesb (lut_entry i) (lut_value i).

(** The ring full, the block at the head partly consumed. *)
Definition example_lapped : pluto_source_c :=
  state_after (example_events ++ [Ev_work 10; Ev_callback (example_block x04)])
              example_fresh.

(** The ring full, nothing consumed. *)
Definition example_filled : pluto_source_c :=
  state_after (example_events ++ [Ev_callback (example_block x04)]) example_fresh.

(** * Proofs *)

(** ** Machine integers *)

Lemma uint32_id z : 0 <= z < 2 ^ 32 -> uint32 z = z.
Proof. intros H. unfold uint32. apply Z.mod_small; lia. Qed.

Lemma int32_id z : - 2 ^ 31 <= z < 2 ^ 31 -> int32 z = z.
Proof. intros H. unfold int32. rewrite Z.mod_small; lia. Qed.



(** ** The converter is exact on every 16-bit code *)



Lemma denotesb_denotes x q : Float32.denotesb x q = true -> Float32.denotes x q.
Proof.
  unfold Float32.denotesb, Float32.denotes. destruct (Float32.value x) as [v|]; [|discriminate].
  intros H. exists v. split; [reflexivity|]. apply Qeq_bool_iff. exact H.
Qed.


(** ** Shorts in memory *)

Lemma read_short_lookup : forall i mem,
  read_short mem i = shorts_of_bytes mem !! i.
Proof.
  induction i as [|i IH]; intros mem.
  - destruct mem as [|lo [|hi rest]]; reflexivity.
  - destruct mem as [|lo [|hi rest]]; try reflexivity.
    cbn [shorts_of_bytes]. rewrite lookup_cons. rewrite <- IH.
    unfold read_short.
    replace (2 * S i)%nat with (S (S (2 * i))) by lia.
    replace (S (S (2 * i)) + 1)%nat with (S (S (2 * i + 1))) by lia.
    reflexivity.
Qed.

Lemma shorts_of_bytes_length : forall n bs,
  length bs = (2 * n)%nat -> length (shorts_of_bytes bs) = n.
Proof.
  induction n as [|n IH]; intros bs H.
  - destruct bs; [reflexivity|discriminate].
  - destruct bs as [|lo [|hi rest]]; simpl in H; try lia.
    simpl. f_equal. apply IH. lia.
Qed.

Lemma shorts_of_bytes_app : forall n a b,
  length a = (2 * n)%nat ->
  shorts_of_bytes (a ++ b) = shorts_of_bytes a ++ shorts_of_bytes b.
Proof.
  induction n as [|n IH]; intros a b H.
  - destruct a; [reflexivity|discriminate].
  - destruct a as [|lo [|hi rest]]; simpl in H; try lia.
    simpl. f_equal. apply IH. lia.
Qed.

Lemma shorts_of_bytes_drop : forall n bs,
  shorts_of_bytes (drop (2 * n) bs) = drop n (shorts_of_bytes bs).
Proof.
  induction n as [|n IH]; intros bs.
  - reflexivity.
  - replace (2 * S n)%nat with (S (S (2 * n))) by lia.
    destruct bs as [|lo [|hi rest]]; try reflexivity.
    simpl. apply IH.
Qed.

Lemma shorts_of_bytes_take : forall n bs,
  shorts_of_bytes (take (2 * n) bs) = take n (shorts_of_bytes bs).
Proof.
  induction n as [|n IH]; intros bs.
  - reflexivity.
  - replace (2 * S n)%nat with (S (S (2 * n))) by lia.
    destruct bs as [|lo [|hi rest]]; try reflexivity.
    simpl. f_equal. apply IH.
Qed.

Lemma mapM_lookup_seq {A B} (g : A -> B) (l : list A) : forall n a,
  (a + n <= length l)%nat ->
  mapM (fun i => g <$> l !! i) (seq a n) = Some (map g (take n (drop a l))).
Proof.
  induction n as [|n IH]; intros a H.
  - reflexivity.
  - cbn [seq mapM].
    destruct (lookup_lt_is_Some_2 l a) as [x Hx]; [lia|].
    rewrite Hx. cbn. rewrite IH by lia. cbn.
    rewrite (drop_S l x a Hx). cbn. reflexivity.
Qed.

Lemma mapM_ext_seq {B} (f g : nat -> option B) l :
  (forall i, f i = g i) -> mapM f l = mapM g l.
Proof. intros H. induction l as [|x l IH]; cbn; [reflexivity|]. rewrite H, IH. reflexivity. Qed.

Lemma mapM_shift_seq {B} (f : nat -> option B) base : forall n a,
  mapM (fun i => f (base + i)%nat) (seq a n) = mapM f (seq (base + a) n).
Proof.
  induction n as [|n IH]; intros a; cbn; [reflexivity|].
  rewrite IH. replace (base + S a)%nat with (S (base + a)) by lia. reflexivity.
Qed.

(** The kernel converts the bytes it is pointed at, in order. *)
Lemma volk_convert_bytes mem base num :
  0 <= base -> 0 <= num ->
  2 * (base + num) <= Z.of_nat (length mem) ->
  volk_16i_s32f_convert_32f mem base scaling num
  = Some (convert_bytes (take (Z.to_nat (2 * num)) (drop (Z.to_nat (2 * base)) mem))).
Proof.
  intros Hb Hn Hlen. unfold volk_16i_s32f_convert_32f, convert_bytes.
  rewrite (mapM_ext_seq _ (fun i => convert_point scaling <$> shorts_of_bytes mem !! (Z.to_nat base + i)%nat))
    by (intros i; rewrite read_short_lookup; reflexivity).
  rewrite (mapM_shift_seq (fun i => convert_point scaling <$> shorts_of_bytes mem !! i)).
  rewrite Nat.add_0_r.
  replace (Z.to_nat (2 * num)) with (2 * Z.to_nat num)%nat by lia.
  replace (Z.to_nat (2 * base)) with (2 * Z.to_nat base)%nat by lia.
  rewrite shorts_of_bytes_take, shorts_of_bytes_drop.
  apply mapM_lookup_seq.
  assert (Hl : (2 * length (shorts_of_bytes mem) + 1 >= length mem)%nat).
  { clear. remember (length mem) as k eqn:Hk. revert mem Hk.
    induction k as [k IH] using lt_wf_ind. intros mem Hk.
    destruct mem as [|lo [|hi rest]]; simpl in *; try lia.
    specialize (IH (length rest) ltac:(lia) rest eq_refl). lia. }
  lia.
Qed.

(** ** Well-formed objects *)

Lemma wf_capacity s :
  well_formed s ->
  _buf_len s = 4 * (_buf_len s / BYTES_PER_SAMPLE)
  /\ 0 < _buf_len s / BYTES_PER_SAMPLE < 2 ^ 30.
Proof.
  intros W. unfold BYTES_PER_SAMPLE.
  pose proof (wf_len s W) as Hl. pose proof (wf_len_512 s W) as H512.
  pose proof (Z.div_mod (_buf_len s) 512 ltac:(lia)).
  pose proof (Z.div_mod (_buf_len s) 4 ltac:(lia)).
  pose proof (Z.mod_pos_bound (_buf_len s) 4 ltac:(lia)).
  lia.
Qed.

Lemma wf_ring_invariant s : well_formed s -> ring_invariant s.
Proof.
  intros W. unfold ring_invariant.
  split; [apply (wf_cursor s W)|].
  split; [apply (wf_used s W)|apply (wf_head s W)].
Qed.

Lemma wf_slot_lookup s i :
  well_formed s -> 0 <= i < _buf_num s ->
  exists slot, _buf s !! Z.to_nat i = Some slot
               /\ Z.of_nat (length slot) = _buf_len s.
Proof.
  intros W Hi.
  destruct (lookup_lt_is_Some_2 (_buf s) (Z.to_nat i)) as [slot Hs].
  { pose proof (wf_slots s W). lia. }
  exists slot. split; [exact Hs|].
  pose proof (wf_slot_len s W) as HF.
  rewrite Forall_lookup in HF. exact (HF _ _ Hs).
Qed.

Lemma wf_buffered s :
  well_formed s ->
  samples_buffered s
  = _buf_used s * (_buf_len s / BYTES_PER_SAMPLE) - _buf_offset s.
Proof.
  intros W. unfold samples_buffered.
  pose proof (wf_cursor s W). pose proof (wf_used s W).
  destruct (Z.eqb_spec (_buf_used s) 0) as [E|E].
  - rewrite E, (wf_idle s W E). lia.
  - lia.
Qed.

Lemma mod_window_neq a b n :
  0 <= a < b -> b < a + n -> a mod n <> b mod n.
Proof.
  intros Hab Hn E.
  assert (Hd : (b - a) mod n = 0).
  { rewrite Zminus_mod, E, Z.sub_diag. apply Z.mod_0_l. lia. }
  rewrite Z.mod_small in Hd by lia. lia.
Qed.

(** ** The callback *)

Lemma memcpy_fits dst src :
  (length src <= length dst)%nat ->
  memcpy dst src = Some (src ++ drop (length src) dst)
  /\ length (src ++ drop (length src) dst) = length dst.
Proof.
  intros H. unfold memcpy.
  destruct (Nat.leb_spec (length src) (length dst)) as [_|]; [|lia].
  split; [reflexivity|]. rewrite length_app, length_drop. lia.
Qed.

Lemma memcpy_whole dst src :
  length src = length dst -> memcpy dst src = Some src.
Proof.
  intros H. destruct (memcpy_fits dst src) as [E _]; [lia|].
  rewrite E, drop_ge, app_nil_r by lia. reflexivity.
Qed.

Lemma tail_index_range s :
  well_formed s -> 0 <= tail_index s < _buf_num s.
Proof. intros W. apply Z.mod_pos_bound. apply (wf_num s W). Qed.

Lemma push_store buf s :
  well_formed s ->
  Z.of_nat (length buf) <= _buf_len s ->
  plutosdr_callback_push buf s
  = if _buf_used s =? _buf_num s
    then Some (set_buf_head ((_buf_head s + 1) mod _buf_num s)
                 (print "O" (after_store buf s)))
    else Some (set_buf_used (_buf_used s + 1) (after_store buf s)).
Proof.
  intros W Hlen. unfold plutosdr_callback_push.
  pose proof (wf_num s W) as HN. pose proof (wf_head s W) as Hh.
  pose proof (wf_used s W) as Hu. pose proof (tail_index_range s W) as Ht.
  destruct (Z.eqb_spec (_buf_num s) 0) as [|_]; [lia|].
  rewrite (uint32_id (_buf_head s + _buf_used s)) by lia.
  fold (tail_index s). rewrite (int32_id (tail_index s)) by lia.
  destruct (Z.ltb_spec (tail_index s) 0) as [|_]; [lia|].
  destruct (wf_slot_lookup s (tail_index s) W Ht) as [slot [Hs Hsl]].
  rewrite Hs. cbn [mbind option_bind].
  destruct (memcpy_fits slot buf) as [Hm _]; [lia|].
  rewrite Hm. cbn [mbind option_bind].
  assert (Est : buf ++ drop (length buf) slot = stored buf s).
  { unfold stored. rewrite (list_lookup_total_correct _ _ _ Hs). reflexivity. }
  rewrite Est. fold (after_store buf s).
  change (_buf_used (after_store buf s)) with (_buf_used s).
  change (_buf_num (after_store buf s)) with (_buf_num s).
  destruct (Z.eqb_spec (_buf_used s) (_buf_num s)) as [E|E].
  - cbn [_buf_head print _buf_num].
    change (_buf_head (after_store buf s)) with (_buf_head s).
    change (_buf_num (after_store buf s)) with (_buf_num s).
    rewrite (uint32_id (_buf_head s + 1)) by lia. reflexivity.
  - rewrite (uint32_id (_buf_used s + 1)) by lia. reflexivity.
Qed.

Lemma stored_length buf s :
  well_formed s -> Z.of_nat (length buf) <= _buf_len s ->
  Z.of_nat (length (stored buf s)) = _buf_len s.
Proof.
  intros W Hlen. unfold stored.
  destruct (wf_slot_lookup s (tail_index s) W (tail_index_range s W))
    as [slot [Hs Hsl]].
  rewrite (list_lookup_total_correct _ _ _ Hs).
  destruct (memcpy_fits slot buf) as [_ Hl]; [lia|]. lia.
Qed.

Lemma stored_whole buf s :
  well_formed s -> Z.of_nat (length buf) = _buf_len s -> stored buf s = buf.
Proof.
  intros W Hlen. unfold stored.
  destruct (wf_slot_lookup s (tail_index s) W (tail_index_range s W))
    as [slot [Hs Hsl]].
  rewrite (list_lookup_total_correct _ _ _ Hs).
  rewrite drop_ge, app_nil_r by lia. reflexivity.
Qed.

Lemma after_store_slots buf s :
  well_formed s -> Z.of_nat (length buf) <= _buf_len s ->
  Z.of_nat (length (_buf (after_store buf s))) = _buf_num s
  /\ Forall (fun b => Z.of_nat (length b) = _buf_len s) (_buf (after_store buf s)).
Proof.
  intros W Hlen. cbn [after_store set_buf _buf]. split.
  - rewrite length_insert. apply (wf_slots s W).
  - apply Forall_insert; [apply (wf_slot_len s W)|].
    apply stored_length; assumption.
Qed.

Lemma push_well_formed buf s s' :
  well_formed s ->
  Z.of_nat (length buf) <= _buf_len s ->
  plutosdr_callback_push buf s = Some s' ->
  well_formed s'.
Proof.
  intros W Hlen H. rewrite (push_store buf s W Hlen) in H.
  destruct (after_store_slots buf s W Hlen) as [Hn Hf].
  pose proof (wf_num s W) as HN. pose proof (wf_head s W) as Hh.
  pose proof (wf_used s W) as Hu.
  destruct (Z.eqb_spec (_buf_used s) (_buf_num s)) as [E|E];
    injection H as <-; constructor; cbn;
    try solve [apply W | exact Hn | exact Hf | lia
               | apply Z.mod_pos_bound; lia
               | intros E0; pose proof (wf_idle s W); lia].
Qed.

Lemma callback_well_formed buf s s' :
  well_formed s ->
  Z.of_nat (length buf) <= _buf_len s ->
  plutosdr_callback buf s = Some s' ->
  well_formed s'.
Proof.
  intros W Hlen H. unfold plutosdr_callback in H.
  pose proof (wf_skipped s W) as Hs. unfold BUF_SKIP in *.
  destruct (Z.ltb_spec (_skipped s) 1) as [L|L].
  - injection H as <-. replace (_skipped s) with 0 by lia.
    constructor; cbn; try apply W.
    rewrite uint32_id by lia. unfold BUF_SKIP. lia.
  - eapply push_well_formed; eassumption.
Qed.

Lemma callback_defined buf s :
  well_formed s ->
  Z.of_nat (length buf) <= _buf_len s ->
  exists s', plutosdr_callback buf s = Some s'.
Proof.
  intros W Hlen. unfold plutosdr_callback.
  destruct (_skipped s <? BUF_SKIP); [eexists; reflexivity|].
  rewrite (push_store buf s W Hlen).
  destruct (_buf_used s =? _buf_num s); eexists; reflexivity.
Qed.

(** ** The ring as a queue: effect of a push *)

Lemma slot_index_lt s i :
  well_formed s -> (slot_index s i < length (_buf s))%nat.
Proof.
  intros W. unfold slot_index. pose proof (wf_num s W). pose proof (wf_slots s W).
  pose proof (Z.mod_pos_bound (_buf_head s + Z.of_nat i) (_buf_num s)). lia.
Qed.

Lemma filled_blocks_length s :
  length (filled_blocks s) = Z.to_nat (_buf_used s).
Proof. unfold filled_blocks. rewrite length_map, length_seq. reflexivity. Qed.

Lemma filled_blocks_push_room buf s :
  well_formed s -> _buf_used s < _buf_num s ->
  filled_blocks (set_buf_used (_buf_used s + 1) (after_store buf s))
  = filled_blocks s ++ [stored buf s].
Proof.
  intros W Hroom. unfold filled_blocks. cbn [set_buf_used after_store set_buf _buf _buf_used].
  pose proof (wf_num s W) as HN. pose proof (wf_head s W) as Hh.
  pose proof (wf_used s W) as Hu. pose proof (wf_slots s W) as Hs.
  pose proof (tail_index_range s W) as Ht.
  replace (Z.to_nat (_buf_used s + 1)) with (S (Z.to_nat (_buf_used s))) by lia.
  rewrite seq_S, map_app. f_equal.
  - apply map_ext_in. intros i Hi. apply in_seq in Hi.
    apply list_lookup_total_insert_ne.
    unfold slot_index, tail_index; cbn.
    pose proof (mod_window_neq (_buf_head s + Z.of_nat i)
                  (_buf_head s + _buf_used s) (_buf_num s) ltac:(lia) ltac:(lia)).
    pose proof (Z.mod_pos_bound (_buf_head s + Z.of_nat i) (_buf_num s) ltac:(lia)).
    unfold tail_index in Ht. lia.
  - cbn [map]. f_equal.
    replace (slot_index _ (0 + Z.to_nat (_buf_used s))) with (Z.to_nat (tail_index s)).
    + apply list_lookup_total_insert_eq. lia.
    + unfold slot_index, tail_index; cbn. do 2 f_equal. lia.
Qed.

Lemma filled_blocks_push_full buf s :
  well_formed s -> _buf_used s = _buf_num s ->
  filled_blocks (set_buf_head ((_buf_head s + 1) mod _buf_num s)
                   (print "O" (after_store buf s)))
  = tail (filled_blocks s) ++ [stored buf s].
Proof.
  intros W Hfull. unfold filled_blocks.
  cbn [set_buf_head print after_store set_buf _buf _buf_used].
  pose proof (wf_num s W) as HN. pose proof (wf_head s W) as Hh.
  pose proof (wf_slots s W) as Hs.
  pose proof (tail_index_range s W) as Ht.
  destruct (Z.to_nat (_buf_used s)) as [|m] eqn:Em; [lia|].
  rewrite seq_S at 1. cbn [seq map tail]. rewrite <- seq_shift, map_map, map_app.
  assert (Etail : tail_index s = _buf_head s).
  { unfold tail_index. rewrite Hfull.
    rewrite <- (Z.mul_1_l (_buf_num s)) at 1.
    rewrite Z.mod_add by lia. apply Z.mod_small. lia. }
  f_equal.
  - apply map_ext_in. intros i Hi. apply in_seq in Hi.
    assert (Ei : slot_index (set_buf_head ((_buf_head s + 1) mod _buf_num s)
                               (print "O" (after_store buf s))) i
                 = slot_index s (S i)).
    { unfold slot_index; cbn. f_equal. rewrite Zplus_mod_idemp_l. f_equal. lia. }
    unfold slot_index in Ei |- *. cbn [_buf_head _buf_num set_buf_head] in Ei |- *.
    rewrite Ei.
    apply list_lookup_total_insert_ne.
    rewrite Etail.
    pose proof (mod_window_neq (_buf_head s) (_buf_head s + Z.of_nat (S i))
                  (_buf_num s) ltac:(lia) ltac:(lia)) as Hne.
    rewrite (Z.mod_small (_buf_head s)) in Hne by lia.
    pose proof (Z.mod_pos_bound (_buf_head s + Z.of_nat (S i)) (_buf_num s) ltac:(lia)).
    lia.
  - cbn [map]. f_equal.
    replace (slot_index _ (0 + m)) with (Z.to_nat (tail_index s)).
    + apply list_lookup_total_insert_eq. lia.
    + rewrite Etail. unfold slot_index.
      cbn [_buf_head _buf_num set_buf_head print after_store set_buf].
      f_equal. rewrite Zplus_mod_idemp_l.
      transitivity ((_buf_head s + 1 * _buf_num s) mod _buf_num s).
      * rewrite Z.mod_add by lia. rewrite Z.mod_small by lia. reflexivity.
      * f_equal. lia.
Qed.

(** The oldest unread block is the one in the slot at [_buf_head]. *)
Lemma filled_blocks_head s s' :
  well_formed s -> 0 < _buf_used s ->
  _buf s' = _buf s -> _buf_num s' = _buf_num s ->
  _buf_head s' = (_buf_head s + 1) mod _buf_num s ->
  _buf_used s' = _buf_used s - 1 ->
  filled_blocks s = (_buf s !!! Z.to_nat (_buf_head s)) :: filled_blocks s'.
Proof.
  intros W Hpos Eb En Eh Eu. unfold filled_blocks.
  pose proof (wf_num s W) as HN. pose proof (wf_head s W) as Hh.
  replace (Z.to_nat (_buf_used s)) with (S (Z.to_nat (_buf_used s'))) by lia.
  cbn [seq map]. f_equal.
  - unfold slot_index. rewrite Z.add_0_r, Z.mod_small by lia. reflexivity.
  - rewrite <- seq_shift, map_map. apply map_ext. intros i.
    rewrite Eb. f_equal. unfold slot_index. rewrite En, Eh.
    rewrite Zplus_mod_idemp_l. do 2 f_equal. lia.
Qed.

Lemma filled_blocks_slot_len s :
  well_formed s ->
  Forall (fun b => Z.of_nat (length b) = _buf_len s) (filled_blocks s).
Proof.
  intros W. unfold filled_blocks. apply Forall_forall. intros b Hb.
  apply list_elem_of_In, in_map_iff in Hb as [i [<- _]].
  pose proof (wf_slot_len s W) as HF. rewrite Forall_lookup in HF.
  destruct (lookup_lt_is_Some_2 (_buf s) (slot_index s i) (slot_index_lt s i W))
    as [slot Hs].
  rewrite (list_lookup_total_correct _ _ _ Hs). exact (HF _ _ Hs).
Qed.

Lemma concat_slots_length (len : Z) (bs : list (list byte)) :
  Forall (fun b => Z.of_nat (length b) = len) bs ->
  Z.of_nat (length (concat bs)) = Z.of_nat (length bs) * len.
Proof.
  induction 1 as [|b bs Hb _ IH]; [reflexivity|].
  cbn [concat length]. rewrite length_app. lia.
Qed.

(** The bytes awaiting conversion are exactly the buffered samples. *)
Lemma pending_bytes_length s :
  well_formed s ->
  Z.of_nat (length (pending_bytes s)) = 4 * samples_buffered s.
Proof.
  intros W. unfold pending_bytes. rewrite length_drop.
  pose proof (concat_slots_length _ _ (filled_blocks_slot_len s W)) as Hc.
  rewrite filled_blocks_length in Hc.
  rewrite (wf_buffered s W).
  destruct (wf_capacity s W) as [Hcap Hb].
  pose proof (wf_used s W). pose proof (wf_offset s W). pose proof (wf_cursor s W).
  pose proof (wf_avail s W). pose proof (wf_idle s W).
  destruct (Z.eq_dec (_buf_used s) 0) as [E|E].
  - rewrite E in *. lia.
  - nia.
Qed.


(** ** The loop of work *)

Lemma convert_bytes_app n a b :
  length a = (2 * n)%nat ->
  convert_bytes (a ++ b) = convert_bytes a ++ convert_bytes b.
Proof.
  intros H. unfold convert_bytes.
  rewrite (shorts_of_bytes_app n a b H). apply map_app.
Qed.

Lemma work_loop_done fuel n nitems out s :
  negb (n =? 0) && negb (_buf_used s =? 0) = false ->
  work_loop fuel n nitems out s = Some (nitems, out, s).
Proof. intros H. destruct fuel; simpl; rewrite H; reflexivity. Qed.

Lemma advance_well_formed s :
  well_formed s -> 0 < _buf_used s -> well_formed (advance s).
Proof.
  intros W Hu. destruct (wf_capacity s W) as [Hc Hb].
  pose proof (wf_num s W). pose proof (wf_used s W).
  constructor; cbn; try solve [apply W | lia | apply Z.mod_pos_bound; lia].
Qed.

Lemma consume_well_formed nout s :
  well_formed s -> 0 < _buf_used s -> 0 <= nout < _samp_avail s ->
  well_formed (consume nout s).
Proof.
  intros W Hu Hn. pose proof (wf_offset s W). pose proof (wf_cursor s W).
  constructor; cbn; try solve [apply W | lia].
Qed.

Lemma head_slot_pending s :
  well_formed s -> 0 < _buf_used s ->
  pending_bytes s
  = drop (Z.to_nat (4 * _buf_offset s)) (_buf s !!! Z.to_nat (_buf_head s))
    ++ pending_bytes (advance s)
  /\ Z.of_nat (length (drop (Z.to_nat (4 * _buf_offset s))
                          (_buf s !!! Z.to_nat (_buf_head s))))
     = 4 * _samp_avail s.
Proof.
  intros W Hu. destruct (wf_capacity s W) as [Hc Hb].
  pose proof (wf_offset s W). pose proof (wf_cursor s W). pose proof (wf_avail s W).
  destruct (wf_slot_lookup s (_buf_head s) W (wf_head s W)) as [slot [Hs Hl]].
  rewrite (list_lookup_total_correct _ _ _ Hs).
  unfold pending_bytes at 1 2.
  rewrite (filled_blocks_head s (advance s) W Hu) by reflexivity.
  rewrite (list_lookup_total_correct _ _ _ Hs).
  cbn [concat advance set_buf_offset _buf_offset]. rewrite Z.mul_0_r. cbn [Z.to_nat drop].
  split.
  - rewrite drop_app_le by lia. reflexivity.
  - rewrite length_drop. lia.
Qed.

Lemma consume_pending nout s :
  0 <= nout -> 0 <= _buf_offset s ->
  pending_bytes (consume nout s)
  = drop (Z.to_nat (4 * nout)) (pending_bytes s).
Proof.
  intros Hn Ho. unfold pending_bytes.
  change (filled_blocks (consume nout s)) with (filled_blocks s).
  cbn [consume set_buf_offset _buf_offset].
  rewrite drop_drop. f_equal. lia.
Qed.

(** One iteration: [nout] samples are converted from the front of the
    pending bytes. *)
Lemma work_loop_step fuel n nitems out s :
  well_formed s -> 0 < n < 2 ^ 31 -> 0 < _buf_used s ->
  let nout := Z.min n (_samp_avail s) in
  work_loop (S fuel) n nitems out s
  = work_loop fuel (n - nout) (nitems + nout)
      (out ++ convert_bytes (take (Z.to_nat (4 * nout)) (pending_bytes s)))
      (after_chunk nout s)
  /\ well_formed (after_chunk nout s)
  /\ pending_bytes (after_chunk nout s)
     = drop (Z.to_nat (4 * nout)) (pending_bytes s).
Proof.
  intros W Hn Hu nout.
  destruct (wf_capacity s W) as [Hc Hb].
  pose proof (wf_offset s W) as Ho. pose proof (wf_cursor s W) as Hcur.
  pose proof (wf_avail s W) as Ha. pose proof (wf_num s W) as HN.
  pose proof (wf_head s W) as Hh. pose proof (wf_used s W) as Hus.
  assert (Hnout : 0 < nout <= _samp_avail s /\ nout <= n) by (unfold nout; lia).
  destruct (head_slot_pending s W Hu) as [Hp Hpl].
  destruct (wf_slot_lookup s (_buf_head s) W Hh) as [slot [Hs Hl]].
  rewrite (list_lookup_total_correct _ _ _ Hs) in Hp, Hpl.
  assert (Hchunk : take (Z.to_nat (4 * nout)) (pending_bytes s)
                   = take (Z.to_nat (2 * (2 * nout)))
                       (drop (Z.to_nat (2 * (_buf_offset s * 2))) slot)).
  { rewrite Hp. rewrite take_app_le by lia. do 2 f_equal; lia. }
  split; [|split].
  - cbn [work_loop].
    destruct (Z.eqb_spec n 0) as [|_]; [lia|].
    destruct (Z.eqb_spec (_buf_used s) 0) as [|_]; [lia|].
    cbn [negb andb]. fold nout. rewrite Hs. cbn [mbind option_bind].
    rewrite (uint32_id (_buf_offset s * 2)) by lia.
    rewrite (uint32_id (2 * nout)) by lia.
    rewrite volk_convert_bytes by lia. cbn [mbind option_bind].
    rewrite <- Hchunk.
    rewrite (int32_id (n - nout)) by lia.
    rewrite (int32_id (_samp_avail s - nout)) by lia.
    cbn [_samp_avail set_samp_avail]. unfold after_chunk.
    destruct (Z.eqb_spec (_samp_avail s - nout) 0) as [E|E].
    + cbn [_buf_head _buf_num _buf_used _buf_len set_samp_avail set_buf_head set_buf_used].
      destruct (Z.eqb_spec (_buf_num s) 0) as [|_]; [lia|].
      cbn [mbind option_bind].
      rewrite (uint32_id (_buf_head s + 1)) by lia.
      rewrite (uint32_id (_buf_used s - 1)) by lia.
      rewrite (int32_id (_buf_len s / BYTES_PER_SAMPLE)) by lia.
      reflexivity.
    + cbn [_buf_offset set_samp_avail mbind option_bind].
      rewrite (uint32_id (_buf_offset s + nout)) by lia.
      reflexivity.
  - unfold after_chunk. destruct (Z.eqb_spec (_samp_avail s - nout) 0).
    + apply advance_well_formed; assumption.
    + apply consume_well_formed; [assumption|assumption|lia].
  - unfold after_chunk. destruct (Z.eqb_spec (_samp_avail s - nout) 0) as [E|E].
    + rewrite Hp. rewrite drop_app_length'; [reflexivity|]. rewrite length_drop in *. lia.
    + apply consume_pending; lia.
Qed.

Lemma same_ring_storage_refl s : same_ring_storage s s.
Proof. unfold same_ring_storage. tauto. Qed.

Lemma same_ring_storage_trans s1 s2 s3 :
  same_ring_storage s1 s2 -> same_ring_storage s2 s3 -> same_ring_storage s1 s3.
Proof. unfold same_ring_storage. intuition congruence. Qed.

Lemma after_chunk_storage nout s : same_ring_storage s (after_chunk nout s).
Proof.
  unfold after_chunk, same_ring_storage.
  destruct (_samp_avail s - nout =? 0); cbn; tauto.
Qed.

Lemma samples_buffered_nonneg s : well_formed s -> 0 <= samples_buffered s.
Proof.
  intros W. unfold samples_buffered.
  destruct (wf_capacity s W) as [_ Hb].
  pose proof (wf_avail s W). pose proof (wf_used s W).
  destruct (Z.eqb_spec (_buf_used s) 0); nia.
Qed.

(** The loop in closed form: it converts the first [k] buffered samples,
    [k] being the request or all that is buffered, and releases one block
    for every [_buf_len / 4] samples taken. *)
Lemma work_loop_spec : forall fuel s n nitems out,
  well_formed s -> 0 <= n < 2 ^ 31 ->
  (Z.to_nat (_buf_used s) < fuel)%nat ->
  let k := Z.min n (samples_buffered s) in
  let cap := _buf_len s / BYTES_PER_SAMPLE in
  exists s',
    work_loop fuel n nitems out s
    = Some (nitems + k,
            out ++ convert_bytes (take (Z.to_nat (4 * k)) (pending_bytes s)),
            s')
    /\ well_formed s'
    /\ pending_bytes s' = drop (Z.to_nat (4 * k)) (pending_bytes s)
    /\ same_ring_storage s s'
    /\ _buf_used s' = _buf_used s - (_buf_offset s + k) / cap
    /\ _buf_offset s' = (_buf_offset s + k) mod cap
    /\ _buf_head s' = (_buf_head s + (_buf_offset s + k) / cap) mod _buf_num s.
Proof.
  induction fuel as [|fuel IH]; intros s n nitems out W Hn Hfuel k cap; [lia|].
  destruct (wf_capacity s W) as [Hc Hb]. fold cap in Hc, Hb.
  pose proof (wf_offset s W) as Ho. pose proof (wf_cursor s W) as Hcur.
  pose proof (wf_avail s W) as Ha. pose proof (wf_num s W) as HN.
  pose proof (wf_head s W) as Hh. pose proof (wf_used s W) as Hus.
  pose proof (wf_buffered s W) as Hbuf. fold cap in Hcur, Hbuf.
  destruct (Z.eq_dec n 0) as [En|En]; [|destruct (Z.eq_dec (_buf_used s) 0) as [Eu|Eu]].
  - (* nothing requested *)
    pose proof (samples_buffered_nonneg s W).
    assert (Ek : k = 0) by (unfold k; lia). rewrite Ek.
    exists s. rewrite work_loop_done by (subst n; reflexivity).
    rewrite !Z.add_0_r, Z.mul_0_r. cbn [Z.to_nat]. rewrite take_0, drop_0.
    change (convert_bytes []) with (@nil float32). rewrite app_nil_r.
    rewrite (Z.div_small (_buf_offset s) cap), (Z.mod_small (_buf_offset s) cap) by lia.
    rewrite Z.add_0_r, (Z.mod_small (_buf_head s)) by lia.
    repeat split; first [assumption | reflexivity | lia | apply W].
  - (* nothing buffered *)
    assert (Ek : k = 0) by (unfold k; rewrite Hbuf, Eu, (wf_idle s W Eu); lia).
    rewrite Ek. exists s.
    rewrite work_loop_done by (rewrite Eu; apply andb_false_r).
    rewrite !Z.add_0_r, Z.mul_0_r. cbn [Z.to_nat]. rewrite take_0, drop_0.
    change (convert_bytes []) with (@nil float32). rewrite app_nil_r.
    rewrite (Z.div_small (_buf_offset s) cap), (Z.mod_small (_buf_offset s) cap) by lia.
    rewrite Z.add_0_r, (Z.mod_small (_buf_head s)) by lia.
    repeat split; first [assumption | reflexivity | lia | apply W].
  - (* one iteration *)
    destruct (work_loop_step fuel n nitems out s W ltac:(lia) ltac:(lia))
      as [Hstep [W1 Hp1]].
    set (nout := Z.min n (_samp_avail s)) in *.
    assert (Hnout : 0 < nout <= _samp_avail s /\ nout <= n) by (unfold nout; lia).
    pose proof (pending_bytes_length s W) as Hplen. rewrite Hbuf in Hplen.
    assert (Hsplit : forall k1, 0 <= k1 ->
      take (Z.to_nat (4 * nout)) (pending_bytes s)
        ++ take (Z.to_nat (4 * k1)) (pending_bytes (after_chunk nout s))
      = take (Z.to_nat (4 * (nout + k1))) (pending_bytes s)).
    { intros k1 Hk1. rewrite Hp1, take_take_drop. f_equal. lia. }
    assert (Hconv : forall k1, 0 <= k1 ->
      (out ++ convert_bytes (take (Z.to_nat (4 * nout)) (pending_bytes s)))
        ++ convert_bytes (take (Z.to_nat (4 * k1)) (pending_bytes (after_chunk nout s)))
      = out ++ convert_bytes (take (Z.to_nat (4 * (nout + k1))) (pending_bytes s))).
    { intros k1 Hk1. rewrite <- app_assoc. f_equal.
      rewrite <- (Hsplit k1 Hk1).
      symmetry. apply (convert_bytes_app (2 * Z.to_nat nout)).
      rewrite length_take. nia. }
    rewrite Hstep.
    unfold after_chunk in *.
    destruct (Z.eqb_spec (_samp_avail s - nout) 0) as [E|E].
    + (* the block at the head is exhausted *)
      destruct (IH (advance s) (n - nout) (nitems + nout)
                  (out ++ convert_bytes (take (Z.to_nat (4 * nout)) (pending_bytes s)))
                  W1 ltac:(lia) ltac:(cbn; lia))
        as [s' [Hrun [W' [Hp' [Hst' [Hu' [Ho' Hh']]]]]]].
      pose proof (wf_buffered (advance s) W1) as Hbuf1.
      cbn [advance _buf_used _buf_offset _buf_len _buf_head _buf_num
           set_buf_offset set_samp_avail set_buf_used set_buf_head]
        in Hbuf1, Hu', Ho', Hh', Hrun.
      fold cap in Hbuf1, Hu', Ho', Hh'.
      set (k1 := Z.min (n - nout) (samples_buffered (advance s))) in *.
      assert (Hk1 : 0 <= k1) by (unfold k1; rewrite Hbuf1; nia).
      assert (Ek : k = nout + k1) by (unfold k, k1; rewrite Hbuf, Hbuf1; nia).
      exists s'. rewrite Hrun, Ek, (Hconv k1 Hk1).
      replace (_buf_offset s + (nout + k1)) with (k1 + 1 * cap) by lia.
      rewrite Z.div_add, Z.mod_add by lia.
      rewrite Z.add_0_l in Hu', Ho', Hh'.
      split; [|split; [|split; [|split; [|split; [|split]]]]].
      * rewrite Z.add_assoc. reflexivity.
      * exact W'.
      * rewrite Hp', Hp1, drop_drop. f_equal. lia.
      * eapply same_ring_storage_trans; [|exact Hst'].
        unfold same_ring_storage; cbn; tauto.
      * lia.
      * exact Ho'.
      * rewrite Hh'. rewrite Zplus_mod_idemp_l. f_equal. lia.
    + (* the request ends inside the block *)
      assert (En0 : n - nout = 0) by lia.
      assert (Ek : k = nout) by (unfold k; rewrite Hbuf; nia).
      exists (consume nout s).
      rewrite work_loop_done by (rewrite En0; reflexivity).
      rewrite Ek.
      assert (Hsmall : 0 <= _buf_offset s + nout < cap) by lia.
      rewrite (Z.div_small (_buf_offset s + nout) cap),
              (Z.mod_small (_buf_offset s + nout) cap) by lia.
      rewrite Z.add_0_r, (Z.mod_small (_buf_head s)) by lia.
      split; [|split; [|split; [|split; [|split; [|split]]]]].
      * reflexivity.
      * exact W1.
      * exact Hp1.
      * unfold same_ring_storage; cbn; tauto.
      * cbn. lia.
      * reflexivity.
      * reflexivity.
Qed.

(** ** work as a whole *)

Lemma work_not_running n s :
  _running s = false -> work n s = Some (Returned WORK_DONE [], s).
Proof. intros H. unfold work. rewrite H, andb_false_r. reflexivity. Qed.

Lemma work_waits n s :
  _buf_used s < 3 -> _running s = true -> work n s = Some (Blocked, s).
Proof.
  intros Hu Hr. unfold work. rewrite Hr.
  destruct (Z.ltb_spec (_buf_used s) 3); [reflexivity|lia].
Qed.

(** Past the wait and with the flag set, [work] is its loop. *)
Lemma work_drains n s :
  well_formed s -> 0 <= n < 2 ^ 31 ->
  3 <= _buf_used s -> _running s = true ->
  let k := Z.min n (samples_buffered s) in
  let cap := _buf_len s / BYTES_PER_SAMPLE in
  exists s',
    work n s
    = Some (Returned k (convert_bytes (take (Z.to_nat (4 * k)) (pending_bytes s))), s')
    /\ well_formed s'
    /\ pending_bytes s' = drop (Z.to_nat (4 * k)) (pending_bytes s)
    /\ same_ring_storage s s'
    /\ _buf_used s' = _buf_used s - (_buf_offset s + k) / cap
    /\ _buf_offset s' = (_buf_offset s + k) mod cap
    /\ _buf_head s' = (_buf_head s + (_buf_offset s + k) / cap) mod _buf_num s.
Proof.
  intros W Hn Hu Hr k cap.
  destruct (work_loop_spec (S (Z.to_nat (_buf_used s))) s n 0 [] W Hn ltac:(lia))
    as [s' [Hrun H]].
  exists s'. split; [|exact H].
  unfold work. rewrite Hr.
  destruct (Z.ltb_spec (_buf_used s) 3); [lia|].
  cbn [andb negb]. rewrite Hrun. cbn [mbind option_bind].
  pose proof (samples_buffered_nonneg s W).
  rewrite Z.add_0_l, int32_id by lia. reflexivity.
Qed.

Lemma samples_buffered_after s s' k :
  well_formed s -> well_formed s' ->
  _buf_len s' = _buf_len s ->
  _buf_used s' = _buf_used s - (_buf_offset s + k) / (_buf_len s / BYTES_PER_SAMPLE) ->
  _buf_offset s' = (_buf_offset s + k) mod (_buf_len s / BYTES_PER_SAMPLE) ->
  samples_buffered s' = samples_buffered s - k.
Proof.
  intros W W' El Eu Eo.
  rewrite (wf_buffered s W), (wf_buffered s' W'), El, Eu, Eo.
  destruct (wf_capacity s W) as [_ Hb].
  pose proof (Z.div_mod (_buf_offset s + k) (_buf_len s / BYTES_PER_SAMPLE) ltac:(lia)).
  nia.
Qed.

Lemma convert_bytes_length n bs :
  length bs = (2 * n)%nat -> length (convert_bytes bs) = n.
Proof.
  intros H. unfold convert_bytes. rewrite length_map.
  apply shorts_of_bytes_length. exact H.
Qed.

(** Every call of [work] on a well-formed object has a defined result. *)
Lemma work_total n s :
  well_formed s -> 0 <= n < 2 ^ 31 ->
  exists r s',
    work n s = Some (r, s')
    /\ well_formed s'
    /\ same_ring_storage s s'
    /\ match r with
       | Blocked => s' = s
       | Returned ret out =>
           (ret = WORK_DONE /\ out = [] /\ s' = s)
           \/ (0 <= ret
               /\ samples_buffered s' = samples_buffered s - ret
               /\ Z.of_nat (length out) = 2 * ret)
       end.
Proof.
  intros W Hn.
  destruct (_running s) eqn:Hr.
  - destruct (Z.lt_ge_cases (_buf_used s) 3) as [Hu|Hu].
    + exists Blocked, s. rewrite work_waits by assumption.
      repeat split; first [assumption | reflexivity | apply W].
    + destruct (work_drains n s W Hn Hu Hr) as [s' [Hw [W' [Hp [Hst [Eu [Eo Eh]]]]]]].
      eexists _, s'. split; [exact Hw|]. split; [exact W'|]. split; [exact Hst|].
      right. pose proof (samples_buffered_nonneg s W) as Hb0.
      split; [lia|]. split.
      * apply samples_buffered_after; try assumption. apply Hst.
      * pose proof (pending_bytes_length s W) as Hl.
        rewrite (convert_bytes_length (2 * Z.to_nat (Z.min n (samples_buffered s)))).
        -- lia.
        -- rewrite length_take. lia.
  - exists (Returned WORK_DONE []), s. rewrite work_not_running by assumption.
    split; [reflexivity|]. split; [assumption|].
    split; [apply same_ring_storage_refl|]. left. tauto.
Qed.

(** ** Invariants of a run *)

Lemma set_running_well_formed b s :
  well_formed s -> well_formed (set_running b s).
Proof. intros W. constructor; cbn; apply W. Qed.

Lemma print_well_formed text s :
  well_formed s -> well_formed (print text s).
Proof. intros W. constructor; cbn; apply W. Qed.

Lemma plutosdr_wait_well_formed ret s :
  well_formed s -> well_formed (plutosdr_wait ret s).
Proof.
  intros W. unfold plutosdr_wait.
  destruct (negb (ret =? 0)).
  - apply print_well_formed, set_running_well_formed, W.
  - apply set_running_well_formed, W.
Qed.

Lemma push_buffered buf s s' :
  well_formed s -> Z.of_nat (length buf) <= _buf_len s ->
  plutosdr_callback_push buf s = Some s' ->
  _buf_len s' = _buf_len s /\ _buf_num s' = _buf_num s
  /\ _skipped s' = _skipped s /\ _running s' = _running s
  /\ samples_buffered s'
     = if _buf_used s =? _buf_num s then samples_buffered s
       else samples_buffered s + _buf_len s / BYTES_PER_SAMPLE.
Proof.
  intros W Hlen H.
  pose proof (push_well_formed buf s s' W Hlen H) as W'.
  rewrite (wf_buffered s' W'), (wf_buffered s W).
  rewrite (push_store buf s W Hlen) in H.
  destruct (Z.eqb_spec (_buf_used s) (_buf_num s)); injection H as <-; cbn;
    repeat split; lia.
Qed.

Lemma step_invariant ev s t :
  well_formed s -> admissible s ev -> balanced s t ->
  exists s' t',
    step ev (s, t) = Some (s', t')
    /\ well_formed s' /\ balanced s' t'
    /\ _buf_len s' = _buf_len s /\ _buf_num s' = _buf_num s.
Proof.
  intros W Ha [Hb [He Hd]]. destruct ev as [| |ret|buf|n]; cbn [step admissible] in *.
  - exists (set_running true s), t.
    split; [reflexivity|]. split; [apply set_running_well_formed, W|].
    split; [|split; reflexivity]. split; [exact Hb|]. split; assumption.
  - exists (set_running false s), t.
    split; [reflexivity|]. split; [apply set_running_well_formed, W|].
    split; [|split; reflexivity]. split; [exact Hb|]. split; assumption.
  - exists (plutosdr_wait ret s), t.
    pose proof (plutosdr_wait_well_formed ret s W) as W'.
    split; [reflexivity|]. split; [exact W'|].
    assert (E : samples_buffered (plutosdr_wait ret s) = samples_buffered s
                /\ _buf_len (plutosdr_wait ret s) = _buf_len s
                /\ _buf_num (plutosdr_wait ret s) = _buf_num s).
    { unfold plutosdr_wait. destruct (negb (ret =? 0)); repeat split. }
    destruct E as [E1 [E2 E3]]. unfold balanced. rewrite E1, E2.
    split; [|split; [reflexivity|exact E3]]. split; [exact Hb|]. split; assumption.
  - destruct (callback_defined buf s W Ha) as [s' Hs'].
    pose proof (callback_well_formed buf s s' W Ha Hs') as W'.
    rewrite Hs'. cbn [mbind option_bind].
    eexists _, _. split; [reflexivity|]. split; [exact W'|].
    unfold plutosdr_callback in Hs'.
    destruct (_skipped s <? BUF_SKIP).
    + injection Hs' as <-.
      split; [|split; reflexivity]. split; [exact Hb|]. split; assumption.
    + destruct (push_buffered buf s s' W Ha Hs') as [El [En [_ [_ Eb]]]].
      pose proof (wf_used s W) as Hu.
      unfold balanced, count_push. cbn [pushed dropped produced emitted].
      rewrite El, Eb.
      destruct (wf_capacity s W) as [_ Hcap].
      destruct (Z.eqb_spec (_buf_used s) (_buf_num s));
        (split; [|split; [reflexivity|exact En]]);
        (split; [|split; [assumption|]]); lia.
  - destruct (work_total n s W Ha) as [r [s' [Hw [W' [Hst Hr]]]]].
    rewrite Hw. cbn [mbind option_bind].
    exists s', (count_work r t). split; [reflexivity|]. split; [exact W'|].
    assert (El : _buf_len s' = _buf_len s) by apply Hst.
    assert (En : _buf_num s' = _buf_num s) by apply Hst.
    split; [|split; assumption].
    unfold balanced. rewrite El.
    destruct r as [|ret out]; cbn [count_work].
    + subst s'. split; [exact Hb|]. split; assumption.
    + cbn [pushed dropped produced emitted].
      destruct Hr as [[-> [-> ->]]|[Hret [Hbuf Hout]]].
      * cbn. rewrite app_nil_r. split; [exact Hb|]. split; assumption.
      * destruct (Z.ltb_spec ret 0); [lia|].
        rewrite length_app. split; [lia|]. split; [lia|assumption].
Qed.

Lemma run_invariant : forall evs s t,
  well_formed s -> Forall (admissible s) evs -> balanced s t ->
  exists s' t',
    run evs (s, t) = Some (s', t')
    /\ well_formed s' /\ balanced s' t'
    /\ _buf_len s' = _buf_len s /\ _buf_num s' = _buf_num s.
Proof.
  induction evs as [|ev evs IH]; intros s t W Ha Hb.
  - exists s, t. split; [reflexivity|]. split; [exact W|]. split; [exact Hb|].
    split; reflexivity.
  - inversion Ha as [|? ? Hev Hevs]; subst.
    destruct (step_invariant ev s t W Hev Hb) as [s1 [t1 [Hs [W1 [Hb1 [El En]]]]]].
    destruct (IH s1 t1 W1) as [s' [t' [Hr [W' [Hb' [El' En']]]]]]; [|exact Hb1|].
    + eapply Forall_impl; [exact Hevs|].
      intros e He. destruct e; cbn in *; try exact He. rewrite El. exact He.
    + exists s', t'. cbn [run]. rewrite Hs. cbn [mbind option_bind].
      split; [exact Hr|]. split; [exact W'|]. split; [exact Hb'|].
      split; congruence.
Qed.

Lemma well_formedb_true s : well_formedb s = true -> well_formed s.
Proof.
  unfold well_formedb. intros H.
  repeat (apply andb_prop in H as [H ?]).
  repeat match goal with
         | H : (_ <? _) = true |- _ => apply Z.ltb_lt in H
         | H : (_ <=? _) = true |- _ => apply Z.leb_le in H
         | H : (_ =? _) = true |- _ => apply Z.eqb_eq in H
         end.
  constructor; try lia.
  apply Forall_forall. intros b Hb.
  match goal with
  | H : forallb _ _ = true |- _ =>
      rewrite forallb_forall in H; apply Z.eqb_eq, H, list_elem_of_In, Hb
  end.
Qed.

Lemma admissibleb_true s evs :
  forallb (admissibleb s) evs = true -> Forall (admissible s) evs.
Proof.
  rewrite forallb_forall. intros H. apply Forall_forall. intros ev Hev.
  specialize (H ev (proj1 (list_elem_of_In _ _) Hev)).
  destruct ev; cbn in *; try exact I; lia.
Qed.

(** ** The constructor *)

Lemma decimal_digits_nonneg : forall v acc z,
  0 <= acc -> decimal_digits acc v = Some z -> 0 <= z.
Proof.
  induction v as [|c v IH]; intros acc z Hacc H; cbn in H.
  - injection H as <-. exact Hacc.
  - unfold digit_of in H.
    destruct ((48 <=? Z.of_nat (Ascii.nat_of_ascii c))
              && (Z.of_nat (Ascii.nat_of_ascii c) <=? 57)) eqn:E; [|discriminate].
    cbn in H. apply andb_prop in E as [E1 E2].
    apply Z.leb_le in E1. eapply IH; [|exact H]. lia.
Qed.

Lemma decimal_uint_range v z : decimal_uint v = Some z -> in_uint32 z.
Proof.
  unfold decimal_uint, in_uint32. destruct v as [|c v]; [discriminate|].
  destruct (decimal_digits 0 (String c v)) as [z'|] eqn:E; [|discriminate].
  cbn. destruct (Z.ltb_spec z' (2 ^ 32)) as [Hlt|Hge]; [|discriminate].
  intros Hz. injection Hz as <-.
  split; [|assumption]. eapply decimal_digits_nonneg; [|exact E]. lia.
Qed.

Lemma alloc_slots_shape n len :
  0 <= n -> 0 <= len ->
  Z.of_nat (length (alloc_slots n len)) = n
  /\ Forall (fun b => Z.of_nat (length b) = len) (alloc_slots n len).
Proof.
  intros Hn Hl. unfold alloc_slots. split.
  - rewrite length_replicate. lia.
  - apply Forall_replicate. rewrite length_replicate. lia.
Qed.

Section ConstructorFacts.

Variable lexical_cast : string -> option Z.
Hypothesis lexical_cast_range :
  forall v z, lexical_cast v = Some z -> in_uint32 z.

Lemma dict_uint_range dict key z :
  dict_uint lexical_cast dict key = Some z -> in_uint32 z.
Proof.
  unfold dict_uint. destruct (dict !! key) as [v|].
  - apply lexical_cast_range.
  - intros H. injection H as <-. unfold in_uint32. lia.
Qed.

(** What the constructor leaves behind. *)
Lemma ctor_fields dict open_ret s :
  pluto_source_c_ctor lexical_cast dict open_ret = Some s ->
  exists nb nl,
    dict_uint lexical_cast dict "buffers" = Some nb
    /\ dict_uint lexical_cast dict "buflen" = Some nl
    /\ _buf_num s = (if 0 =? nb then BUF_NUM else nb)
    /\ _buf_len s = (if (0 =? nl) || negb (nl mod 512 =? 0) then BUF_LEN else nl)
    /\ _buf s = alloc_slots (_buf_num s) (_buf_len s)
    /\ _buf_head s = 0 /\ _buf_used s = 0 /\ _buf_offset s = 0
    /\ _samp_avail s = int32 (_buf_len s / BYTES_PER_SAMPLE)
    /\ _running s = false /\ _skipped s = 0.
Proof.
  unfold pluto_source_c_ctor. intros H.
  destruct (dict_uint lexical_cast dict "buffers") as [nb|]; [|discriminate].
  destruct (dict_uint lexical_cast dict "buflen") as [nl|]; [|discriminate].
  cbn [mbind option_bind] in H.
  destruct (open_ret <? 0); [discriminate|].
  injection H as <-. exists nb, nl. cbn [_buf_num _buf_len _buf _buf_head _buf_used
    _buf_offset _samp_avail _running _skipped]. tauto.
Qed.

Lemma ctor_sizes dict open_ret s :
  pluto_source_c_ctor lexical_cast dict open_ret = Some s ->
  0 < _buf_num s < 2 ^ 32
  /\ 0 < _buf_len s < 2 ^ 32 /\ _buf_len s mod 512 = 0.
Proof.
  intros H. destruct (ctor_fields dict open_ret s H)
    as [nb [nl [Hb [Hl [En [El _]]]]]].
  apply dict_uint_range in Hb, Hl. unfold in_uint32 in Hb, Hl.
  rewrite En, El. unfold BUF_NUM, BUF_LEN. split; [|split].
  - destruct (Z.eqb_spec 0 nb); lia.
  - destruct (Z.eqb_spec 0 nl); cbn [orb]; [lia|].
    destruct (negb (nl mod 512 =? 0)); lia.
  - destruct (Z.eqb_spec 0 nl); cbn [orb]; [reflexivity|].
    destruct (Z.eqb_spec (nl mod 512) 0); cbn [negb]; [assumption|reflexivity].
Qed.

Lemma ctor_ring_invariant dict open_ret s :
  pluto_source_c_ctor lexical_cast dict open_ret = Some s ->
  ring_invariant s.
Proof.
  intros H. destruct (ctor_sizes dict open_ret s H) as [Hn [Hl Hm]].
  destruct (ctor_fields dict open_ret s H)
    as [nb [nl [_ [_ [_ [_ [_ [Eh [Eu [Eo [Ea _]]]]]]]]]]].
  unfold ring_invariant. rewrite Eh, Eu, Eo, Ea.
  assert (0 <= _buf_len s / BYTES_PER_SAMPLE < 2 ^ 30).
  { unfold BYTES_PER_SAMPLE. split.
    - apply Z.div_pos; lia.
    - apply Z.div_lt_upper_bound; lia. }
  rewrite int32_id by lia. lia.
Qed.

Lemma ctor_well_formed dict open_ret s :
  pluto_source_c_ctor lexical_cast dict open_ret = Some s ->
  _buf_num s <= 2 ^ 31 ->
  well_formed s.
Proof.
  intros H Hsmall. destruct (ctor_sizes dict open_ret s H) as [Hn [Hl Hm]].
  destruct (ctor_fields dict open_ret s H)
    as [nb [nl [_ [_ [_ [_ [Eb [Eh [Eu [Eo [Ea [_ Es]]]]]]]]]]]].
  destruct (alloc_slots_shape (_buf_num s) (_buf_len s)) as [Hs1 Hs2]; [lia|lia|].
  assert (0 < _buf_len s / BYTES_PER_SAMPLE < 2 ^ 30).
  { unfold BYTES_PER_SAMPLE.
    pose proof (Z.div_mod (_buf_len s) 512 ltac:(lia)).
    pose proof (Z.div_mod (_buf_len s) 4 ltac:(lia)).
    pose proof (Z.mod_pos_bound (_buf_len s) 4 ltac:(lia)). lia. }
  rewrite int32_id in Ea by lia.
  constructor; rewrite ?Eb, ?Eh, ?Eu, ?Eo, ?Ea, ?Es;
    try assumption; unfold BUF_SKIP; try lia.
Qed.

End ConstructorFacts.

(** ** Runs of deliveries *)

Lemma push_keeps_skipped buf s s' :
  plutosdr_callback_push buf s = Some s' -> _skipped s' = _skipped s.
Proof.
  unfold plutosdr_callback_push. intros H.
  destruct (_buf_num s =? 0); [discriminate|].
  destruct (_ <? 0); [discriminate|].
  destruct (_buf s !! _) as [slot|]; [|discriminate]. cbn [mbind option_bind] in H.
  destruct (memcpy slot buf) as [slot'|]; [|discriminate]. cbn [mbind option_bind] in H.
  destruct (_buf_used _ =? _buf_num _); injection H as <-; reflexivity.
Qed.

Lemma callback_after_skip buf s :
  BUF_SKIP <= _skipped s ->
  plutosdr_callback buf s = plutosdr_callback_push buf s.
Proof.
  intros H. unfold plutosdr_callback.
  destruct (Z.ltb_spec (_skipped s) BUF_SKIP); [lia|reflexivity].
Qed.

Lemma deliver_after_skip : forall bufs s,
  BUF_SKIP <= _skipped s -> deliver bufs s = push_all bufs s.
Proof.
  induction bufs as [|buf bufs IH]; intros s H; [reflexivity|].
  cbn [deliver push_all]. rewrite (callback_after_skip buf s H).
  destruct (plutosdr_callback_push buf s) as [s'|] eqn:E; [|reflexivity].
  cbn [mbind option_bind]. apply IH.
  rewrite (push_keeps_skipped buf s s' E). exact H.
Qed.

Lemma deliver_well_formed : forall bufs s,
  well_formed s -> BUF_SKIP <= _skipped s ->
  Forall (fun b => Z.of_nat (length b) <= _buf_len s) bufs ->
  exists s',
    deliver bufs s = Some s' /\ well_formed s'
    /\ _buf_len s' = _buf_len s /\ _buf_num s' = _buf_num s
    /\ BUF_SKIP <= _skipped s'.
Proof.
  induction bufs as [|buf bufs IH]; intros s W Hs HF.
  - exists s. repeat split; try assumption; try apply W; lia.
  - inversion HF as [|? ? Hb Hbs]; subst.
    destruct (callback_defined buf s W Hb) as [s1 E1].
    pose proof (callback_well_formed buf s s1 W Hb E1) as W1.
    pose proof E1 as E1'. rewrite (callback_after_skip buf s Hs) in E1'.
    destruct (push_buffered buf s s1 W Hb E1') as [El [En [Es _]]].
    destruct (IH s1 W1) as [s' [E' [W' [El' [En' Es']]]]].
    + lia.
    + rewrite El. exact Hbs.
    + exists s'. cbn [deliver]. rewrite E1. cbn [mbind option_bind].
      repeat split; try assumption; try apply W'; lia.
Qed.

Lemma tail_index_full s :
  well_formed s -> _buf_used s = _buf_num s -> tail_index s = _buf_head s.
Proof.
  intros W Hfull. pose proof (wf_num s W). pose proof (wf_head s W).
  unfold tail_index. rewrite Hfull.
  rewrite <- (Z.mul_1_l (_buf_num s)) at 1.
  rewrite Z.mod_add by lia. apply Z.mod_small. lia.
Qed.

Lemma push_counts buf s s' :
  well_formed s ->
  Z.of_nat (length buf) <= _buf_len s ->
  plutosdr_callback_push buf s = Some s' ->
  _buf_used s' = Z.min (_buf_num s) (_buf_used s + 1).
Proof.
  intros W Hlen H. pose proof (wf_used s W) as Hu.
  rewrite (push_store buf s W Hlen) in H.
  destruct (Z.eqb_spec (_buf_used s) (_buf_num s)); injection H as <-; cbn; lia.
Qed.

(** After the skip window every delivery of a run is counted in
    [_buf_used], up to the capacity. *)
Lemma deliver_counts : forall bufs s,
  well_formed s -> BUF_SKIP <= _skipped s ->
  Forall (fun b => Z.of_nat (length b) <= _buf_len s) bufs ->
  exists s',
    deliver bufs s = Some s' /\ well_formed s'
    /\ _buf_len s' = _buf_len s /\ _buf_num s' = _buf_num s
    /\ BUF_SKIP <= _skipped s'
    /\ _buf_used s'
       = Z.min (_buf_num s) (_buf_used s + Z.of_nat (length bufs)).
Proof.
  induction bufs as [|buf bufs IH]; intros s W Hs HF.
  - pose proof (wf_used s W). exists s. cbn [deliver length].
    split; [reflexivity|]. split; [exact W|]. repeat split; lia.
  - inversion HF as [|? ? Hb Hbs]; subst.
    destruct (callback_defined buf s W Hb) as [s1 E1].
    pose proof (callback_well_formed buf s s1 W Hb E1) as W1.
    pose proof E1 as E1'. rewrite (callback_after_skip buf s Hs) in E1'.
    destruct (push_buffered buf s s1 W Hb E1') as [El [En [Es _]]].
    pose proof (push_counts buf s s1 W Hb E1') as Hc.
    pose proof (wf_used s W) as Hu.
    destruct (IH s1 W1) as [s' [E' [W' [El' [En' [Es' Hc']]]]]].
    + lia.
    + rewrite El. exact Hbs.
    + exists s'. cbn [deliver length]. rewrite E1. cbn [mbind option_bind].
      split; [exact E'|]. split; [exact W'|].
      split; [congruence|]. split; [congruence|]. split; [exact Es'|].
      rewrite Hc', Hc, En. lia.
Qed.

(** ** Complex samples *)



Lemma complex_view_app n a b :
  length a = (2 * n)%nat ->
  complex_view (a ++ b) = complex_view a ++ complex_view b.
Proof.
  revert a. induction n as [|n IH]; intros a H.
  - destruct a; [reflexivity|discriminate].
  - destruct a as [|x [|y rest]]; simpl in H; try lia.
    simpl. f_equal. apply IH. lia.
Qed.




(** ** The lookup table plays no part in work *)

Lemma work_loop_set_lut l : forall fuel n nitems out s,
  work_loop fuel n nitems out (set_lut l s)
  = (fun r => (r.1, set_lut l r.2)) <$> work_loop fuel n nitems out s.
Proof.
  induction fuel as [|fuel IH]; intros n nitems out s;
    destruct s as [b num len h u o a r sk lut c];
    cbn [work_loop _buf _buf_num _buf_len _buf_head _buf_used _buf_offset
         _samp_avail set_lut set_samp_avail set_buf_head set_buf_used
         set_buf_offset].
  - destruct (negb (n =? 0) && negb (u =? 0)); reflexivity.
  - destruct (negb (n =? 0) && negb (u =? 0)); [|reflexivity].
    destruct (b !! Z.to_nat h) as [slot|]; [|reflexivity].
    cbn [mbind option_bind].
    destruct (volk_16i_s32f_convert_32f slot _ scaling _) as [conv|]; [|reflexivity].
    cbn [mbind option_bind].
    destruct (int32 (a - Z.min n a) =? 0);
      [destruct (num =? 0); [reflexivity|]|];
      cbn [mbind option_bind];
      match goal with
      | |- _ = _ <$> work_loop _ _ _ _ ?st => exact (IH _ _ _ st)
      end.
Qed.

Lemma work_set_lut l n s :
  work n (set_lut l s) = (fun r => (r.1, set_lut l r.2)) <$> work n s.
Proof.
  destruct s as [b num len h u o a r sk lut c].
  unfold work. cbn [_buf_used _running set_lut].
  destruct ((u <? 3) && r); [reflexivity|].
  destruct (negb r); [reflexivity|].
  match goal with
  | |- context [work_loop ?f n 0 [] ?st1] =>
      match goal with
      | |- _ = _ <$> (_ ← work_loop _ _ _ _ ?st; _) =>
          change st1 with (set_lut l st);
          rewrite (work_loop_set_lut l f n 0 [] st);
          destruct (work_loop f n 0 [] st) as [[[nitems out] s']|]; reflexivity
      end
  end.
Qed.

Lemma set_lut_own s : set_lut (_lut s) s = s.
Proof. destruct s; reflexivity. Qed.

Lemma set_lut_twice l l' s : set_lut l (set_lut l' s) = set_lut l s.
Proof. reflexivity. Qed.

(** ** The claims *)

(** C1.  Pushes into the ring (deliveries after the skip window).  After any
    run of pushes, the next one behaves as follows.  If the ring is full
    ([_buf_used = _buf_num]) the head advances by one modulo [_buf_num],
    [_buf_used] is unchanged, an overflow mark is written to [cerr], the new
    block sits in the slot that was the head, and the queue of unread blocks
    has lost its oldest element and gained the new block at the end.
    Otherwise the block is stored at [(_buf_head + _buf_used) mod _buf_num],
    [_buf_used] grows by one and the queue gains the new block at the end.
    In both cases [_buf_used] stays within [_buf_num]. *)
Theorem push_drops_oldest
    (s : pluto_source_c) (bufs : list (list byte)) (buf : list byte) :
  well_formed s ->
  BUF_SKIP <= _skipped s ->
  Forall (fun b => Z.of_nat (length b) <= _buf_len s) (bufs ++ [buf]) ->
  exists s1 s2,
    deliver bufs s = Some s1
    /\ plutosdr_callback buf s1 = Some s2
    /\ _buf_num s1 = _buf_num s /\ _buf_num s2 = _buf_num s
    /\ _buf_used s1 <= _buf_num s /\ _buf_used s2 <= _buf_num s
    /\ (Z.of_nat (length buf) = _buf_len s -> stored buf s1 = buf)
    /\ if _buf_used s1 =? _buf_num s1
       then _buf_head s2 = (_buf_head s1 + 1) mod _buf_num s1
            /\ _buf_used s2 = _buf_used s1
            /\ cerr s2 = cerr s1 +:+ "O"
            /\ _buf s2 !! Z.to_nat (_buf_head s1) = Some (stored buf s1)
            /\ filled_blocks s2 = tail (filled_blocks s1) ++ [stored buf s1]
       else _buf_head s2 = _buf_head s1
            /\ _buf_used s2 = _buf_used s1 + 1
            /\ cerr s2 = cerr s1
            /\ _buf s2 !! Z.to_nat ((_buf_head s1 + _buf_used s1) mod _buf_num s1)
               = Some (stored buf s1)
            /\ filled_blocks s2 = filled_blocks s1 ++ [stored buf s1].
Proof.
  intros W Hs HF. apply Forall_app in HF as [HFb HF1].
  inversion HF1 as [|? ? Hb _]; subst.
  destruct (deliver_well_formed bufs s W Hs HFb) as [s1 [E1 [W1 [El [En Hs1]]]]].
  rewrite <- El in Hb.
  destruct (callback_defined buf s1 W1 Hb) as [s2 E2].
  pose proof (callback_well_formed buf s1 s2 W1 Hb E2) as W2.
  exists s1, s2. split; [exact E1|]. split; [exact E2|].
  rewrite (callback_after_skip buf s1 Hs1) in E2.
  destruct (push_buffered buf s1 s2 W1 Hb E2) as [_ [En2 _]].
  pose proof (wf_used s1 W1) as Hu1. pose proof (wf_used s2 W2) as Hu2.
  split; [exact En|]. split; [congruence|].
  split; [lia|]. split; [lia|].
  split; [intros Hwhole; apply stored_whole; [exact W1|congruence]|].
  rewrite (push_store buf s1 W1 Hb) in E2.
  pose proof (tail_index_range s1 W1) as Ht. pose proof (wf_slots s1 W1) as Hsl.
  destruct (Z.eqb_spec (_buf_used s1) (_buf_num s1)) as [Efull|Eroom];
    injection E2 as <-.
  - split; [reflexivity|]. split; [reflexivity|]. split; [reflexivity|]. split.
    + cbn [_buf set_buf_head print after_store set_buf].
      rewrite <- (tail_index_full s1 W1 Efull) at 1.
      apply list_lookup_insert_eq. lia.
    + apply filled_blocks_push_full; assumption.
  - split; [reflexivity|]. split; [reflexivity|]. split; [reflexivity|]. split.
    + cbn [_buf set_buf_used after_store set_buf]. fold (tail_index s1).
      apply list_lookup_insert_eq. lia.
    + apply filled_blocks_push_room; [assumption|lia].
Qed.

(** C2, as [work] has it.  [work] signals end-of-stream exactly when
    [_running] is false, whatever the ring holds: it then returns
    [WORK_DONE], writes no sample and leaves the object as it was.  With the
    flag clear and the ring empty it therefore signals end-of-stream and
    neither blocks nor produces. *)
Theorem work_done_iff_not_running (s : pluto_source_c) (n : Z) :
  well_formed s -> 0 <= n < 2 ^ 31 ->
  (signals_done n s <-> _running s = false)
  /\ (_running s = false -> work n s = Some (Returned WORK_DONE [], s))
  /\ (_running s = false -> ~ blocks n s).
Proof.
  intros W Hn. split; [split|split].
  - intros [s' Hd]. destruct (_running s) eqn:Hr; [|reflexivity].
    destruct (Z.lt_ge_cases (_buf_used s) 3) as [Hu|Hu].
    + rewrite (work_waits n s Hu Hr) in Hd. discriminate.
    + destruct (work_drains n s W Hn Hu Hr) as [s1 [Hw _]].
      rewrite Hw in Hd. injection Hd as Hk _ _.
      pose proof (samples_buffered_nonneg s W). unfold WORK_DONE in Hk. lia.
  - intros Hr. exists s. apply work_not_running, Hr.
  - apply work_not_running.
  - intros Hr Hb. unfold blocks in Hb.
    rewrite (work_not_running n s Hr) in Hb. discriminate.
Qed.

(** C3, as [work] has it.  Every call of [work], not only the first, waits
    exactly while fewer than three blocks are buffered and [_running] is
    set; a suspended call has written nothing and changed nothing.  Any
    other call runs to its return without waiting again. *)
Theorem work_blocks_iff_below_prefill (s : pluto_source_c) (n : Z) :
  well_formed s -> 0 <= n < 2 ^ 31 ->
  (blocks n s <-> (_buf_used s < 3 /\ _running s = true))
  /\ (forall s', work n s = Some (Blocked, s') -> s' = s)
  /\ (~ (_buf_used s < 3 /\ _running s = true) ->
      exists ret out s', work n s = Some (Returned ret out, s')).
Proof.
  intros W Hn.
  assert (Hret : ~ (_buf_used s < 3 /\ _running s = true) ->
                 exists ret out s', work n s = Some (Returned ret out, s')).
  { intros Hnb. destruct (_running s) eqn:Hr.
    - destruct (Z.lt_ge_cases (_buf_used s) 3) as [Hu|Hu]; [tauto|].
      destruct (work_drains n s W Hn Hu Hr) as [s1 [Hw _]]. eauto.
    - rewrite (work_not_running n s Hr). eauto. }
  split; [split|split].
  - intros Hb. unfold blocks in Hb.
    destruct (Z.lt_ge_cases (_buf_used s) 3) as [Hu|Hu];
      destruct (_running s) eqn:Hr; try (split; [assumption|reflexivity]);
      exfalso; destruct Hret as [ret [out [s' Hw]]]; try (intros [? ?]; first [lia|discriminate]);
      rewrite Hw in Hb; discriminate.
  - intros [Hu Hr]. apply work_waits; assumption.
  - intros s' Hb.
    destruct (work_total n s W Hn) as [r [s1 [Hw [_ [_ Hr]]]]].
    rewrite Hw in Hb. injection Hb as -> ->. exact Hr.
  - exact Hret.
Qed.


(** C5.  In every run of admissible events from an object with an empty
    ring, the samples [work] has returned plus the samples still buffered
    equal the blocks pushed minus the blocks dropped, times the block
    capacity [_buf_len / 4]; once the ring is empty again the samples
    returned alone equal that product.  At the object reached, a call of
    [work] past the wait releases one block (head advanced modulo
    [_buf_num], used count decremented) for each [_buf_len / 4] samples it
    takes, and leaves the offset at the remainder, zero when the last block
    taken was exhausted. *)
Theorem samples_match_blocks
    (s0 : pluto_source_c) (evs : list event) (n : Z) :
  well_formed s0 -> _buf_used s0 = 0 -> Forall (admissible s0) evs ->
  0 <= n < 2 ^ 31 ->
  let cap := _buf_len s0 / BYTES_PER_SAMPLE in
  exists s t,
    run evs (s0, tally0) = Some (s, t)
    /\ produced t + samples_buffered s = (pushed t - dropped t) * cap
    /\ (_buf_used s = 0 -> produced t = (pushed t - dropped t) * cap)
    /\ Z.of_nat (length (emitted t)) = 2 * produced t
    /\ (_running s = true -> 3 <= _buf_used s ->
        let k := Z.min n (samples_buffered s) in
        exists out s',
          work n s = Some (Returned k out, s')
          /\ _buf_used s' = _buf_used s - (_buf_offset s + k) / cap
          /\ _buf_head s' = (_buf_head s + (_buf_offset s + k) / cap) mod _buf_num s
          /\ _buf_offset s' = (_buf_offset s + k) mod cap
          /\ _samp_avail s' + _buf_offset s' = cap).
Proof.
  intros W Hu0 Hevs Hn cap.
  assert (Hb : balanced s0 tally0).
  { unfold balanced, samples_buffered. rewrite Hu0. cbn. lia. }
  destruct (run_invariant evs s0 tally0 W Hevs Hb)
    as [s [t [Hrun [W' [[Hbal [Hemit _]] [El _]]]]]].
  rewrite El in Hbal. fold cap in Hbal.
  exists s, t. split; [exact Hrun|]. split; [exact Hbal|].
  split; [|split; [exact Hemit|]].
  - intros Hu. rewrite <- Hbal. unfold samples_buffered. rewrite Hu. cbn. lia.
  - intros Hr Hu k.
    destruct (work_drains n s W' Hn Hu Hr) as [s' [Hw [W'' [_ [Hst [Eu [Eo Eh]]]]]]].
    rewrite El in Eu, Eo, Eh. fold cap k in Eu, Eo, Eh. fold k in Hw.
    eexists _, s'. split; [exact Hw|]. split; [exact Eu|]. split; [exact Eh|].
    split; [exact Eo|].
    rewrite (wf_cursor s' W''). unfold cap. rewrite <- El. f_equal. apply Hst.
Qed.

(** C6.  The constructor leaves [_skipped] at zero, and [BUF_SKIP] is 1: the
    first delivery only moves [_skipped] to 1, leaving slots, head and used
    count as they were, and every later delivery of the run is a push.  On
    an object whose slots are addressable and for deliveries no longer than
    a slot this means: after the first delivery and any further deliveries
    [bufs], the used count is the number of these further deliveries (up to
    the capacity), and the next delivery [b] is copied into the slot at
    [(_buf_head + _buf_used) mod _buf_num] and either raises the used count
    or, the ring being full, advances the head: it is never discarded. *)
Theorem first_delivery_discarded
    (lexical_cast : string -> option Z) (dict : gmap string string)
    (open_ret : Z) (s0 : pluto_source_c)
    (buf : list byte) (bufs : list (list byte)) (b : list byte) :
  pluto_source_c_ctor lexical_cast dict open_ret = Some s0 ->
  BUF_SKIP = 1
  /\ plutosdr_callback buf s0 = Some (set_skipped 1 s0)
  /\ _buf (set_skipped 1 s0) = _buf s0
  /\ _buf_head (set_skipped 1 s0) = _buf_head s0
  /\ _buf_used (set_skipped 1 s0) = _buf_used s0
  /\ deliver (buf :: bufs) s0 = push_all bufs (set_skipped 1 s0)
  /\ ((forall v z, lexical_cast v = Some z -> in_uint32 z) ->
      _buf_num s0 <= 2 ^ 31 ->
      Forall (fun x => Z.of_nat (length x) <= _buf_len s0) (bufs ++ [b]) ->
      exists s1 s2,
        deliver (buf :: bufs) s0 = Some s1
        /\ _buf_used s1 = Z.min (_buf_num s0) (Z.of_nat (length bufs))
        /\ _skipped s1 = 1
        /\ plutosdr_callback b s1 = Some s2
        /\ _buf s2 !! Z.to_nat ((_buf_head s1 + _buf_used s1) mod _buf_num s1)
           = Some (b ++ drop (length b)
                     (_buf s1 !!! Z.to_nat ((_buf_head s1 + _buf_used s1)
                                            mod _buf_num s1)))
        /\ (Z.of_nat (length b) = _buf_len s0 ->
            _buf s2 !! Z.to_nat ((_buf_head s1 + _buf_used s1) mod _buf_num s1)
            = Some b)
        /\ (if _buf_used s1 =? _buf_num s1
            then _buf_head s2 = (_buf_head s1 + 1) mod _buf_num s1
                 /\ _buf_used s2 = _buf_used s1
                 /\ filled_blocks s2
                    = tail (filled_blocks s1)
                      ++ [b ++ drop (length b)
                            (_buf s1 !!! Z.to_nat ((_buf_head s1 + _buf_used s1)
                                                   mod _buf_num s1))]
            else _buf_head s2 = _buf_head s1
                 /\ _buf_used s2 = _buf_used s1 + 1
                 /\ filled_blocks s2
                    = filled_blocks s1
                      ++ [b ++ drop (length b)
                            (_buf s1 !!! Z.to_nat ((_buf_head s1 + _buf_used s1)
                                                   mod _buf_num s1))])).
Proof.
  intros H.
  destruct (ctor_fields lexical_cast dict open_ret s0 H)
    as [nb [nl [_ [_ [_ [_ [_ [_ [Eu0 [_ [_ [_ Es]]]]]]]]]]]].
  assert (E : plutosdr_callback buf s0 = Some (set_skipped 1 s0)).
  { unfold plutosdr_callback. rewrite Es. reflexivity. }
  assert (Ed : deliver (buf :: bufs) s0 = push_all bufs (set_skipped 1 s0)).
  { cbn [deliver]. rewrite E. cbn [mbind option_bind].
    apply deliver_after_skip. cbn. unfold BUF_SKIP. lia. }
  split; [reflexivity|]. split; [exact E|].
  split; [reflexivity|]. split; [reflexivity|]. split; [reflexivity|].
  split; [exact Ed|].
  intros Hrange Hsmall HF. apply Forall_app in HF as [HFb HF1].
  inversion HF1 as [|? ? Hb _]; subst.
  pose proof (ctor_well_formed lexical_cast Hrange dict open_ret s0 H Hsmall) as W0.
  assert (W0' : well_formed (set_skipped 1 s0)).
  { constructor; cbn; try apply W0. unfold BUF_SKIP. lia. }
  destruct (deliver_counts bufs (set_skipped 1 s0) W0')
    as [s1 [E1 [W1 [El [En [Hs1 Hc1]]]]]].
  { cbn. unfold BUF_SKIP. lia. }
  { exact HFb. }
  cbn [_buf_len _buf_num _buf_used set_skipped] in El, En, Hc1.
  rewrite Eu0, Z.add_0_l in Hc1.
  rewrite <- El in Hb.
  destruct (callback_defined b s1 W1 Hb) as [s2 E2].
  exists s1, s2.
  split; [cbn [deliver]; rewrite E; cbn [mbind option_bind]; exact E1|].
  split; [exact Hc1|].
  split; [pose proof (wf_skipped s1 W1); unfold BUF_SKIP in *; lia|].
  split; [exact E2|].
  rewrite (callback_after_skip b s1 Hs1) in E2.
  rewrite (push_store b s1 W1 Hb) in E2.
  pose proof (tail_index_range s1 W1) as Ht. pose proof (wf_slots s1 W1) as Hsl.
  fold (tail_index s1). fold (stored b s1).
  assert (Hslot : forall s2',
            _buf s2' = <[Z.to_nat (tail_index s1) := stored b s1]> (_buf s1) ->
            _buf s2' !! Z.to_nat (tail_index s1) = Some (stored b s1)).
  { intros s2' ->. apply list_lookup_insert_eq. lia. }
  destruct (Z.eqb_spec (_buf_used s1) (_buf_num s1)) as [Efull|Eroom];
    injection E2 as <-.
  - split; [apply Hslot; reflexivity|]. split.
    + intros Hw. rewrite <- (stored_whole b s1 W1) at 2 by congruence.
      apply Hslot. reflexivity.
    + split; [reflexivity|]. split; [reflexivity|].
      apply filled_blocks_push_full; assumption.
  - split; [apply Hslot; reflexivity|]. split.
    + intros Hw. rewrite <- (stored_whole b s1 W1) at 2 by congruence.
      apply Hslot. reflexivity.
    + split; [reflexivity|]. split; [reflexivity|].
      apply filled_blocks_push_room; [assumption|].
      pose proof (wf_used s1 W1). lia.
Qed.

(** C7, as the constructor has it.  The slot count is the parsed [buffers]
    value when present and nonzero, otherwise 15.  The slot length is the
    default 819200 when [buflen] is absent, zero or not a multiple of 512,
    otherwise the parsed value. *)
Theorem ctor_buffer_configuration
    (lexical_cast : string -> option Z) (dict : gmap string string)
    (open_ret : Z) (s : pluto_source_c) :
  pluto_source_c_ctor lexical_cast dict open_ret = Some s ->
  BUF_LEN = 819200
  /\ (dict !! "buffers" = None -> _buf_num s = 15)
  /\ (forall v nb, dict !! "buffers" = Some v -> lexical_cast v = Some nb ->
        _buf_num s = if nb =? 0 then 15 else nb)
  /\ (dict !! "buflen" = None -> _buf_len s = BUF_LEN)
  /\ (forall v nl, dict !! "buflen" = Some v -> lexical_cast v = Some nl ->
        (nl = 0 \/ nl mod 512 <> 0 -> _buf_len s = BUF_LEN)
        /\ (nl <> 0 /\ nl mod 512 = 0 -> _buf_len s = nl)).
Proof.
  intros H.
  destruct (ctor_fields lexical_cast dict open_ret s H)
    as [nb [nl [Hb [Hl [En [El _]]]]]].
  unfold dict_uint in Hb, Hl. unfold BUF_NUM in En.
  split; [reflexivity|]. split; [|split; [|split]].
  - intros E. rewrite E in Hb. injection Hb as <-. exact En.
  - intros v nb' E Hc. rewrite E, Hc in Hb. injection Hb as <-.
    rewrite En. rewrite Z.eqb_sym. reflexivity.
  - intros E. rewrite E in Hl. injection Hl as <-. exact El.
  - intros v nl' E Hc. rewrite E, Hc in Hl. injection Hl as <-.
    rewrite El. split.
    + intros [->|Hm]; [reflexivity|].
      destruct (Z.eqb_spec (nl' mod 512) 0); [contradiction|].
      rewrite orb_true_r. reflexivity.
    + intros [Hnz Hm]. destruct (Z.eqb_spec 0 nl'); [congruence|].
      rewrite Hm. reflexivity.
Qed.

(** C8.  The constructor establishes the invariant
    [_samp_avail + _buf_offset = _buf_len / 4], [0 <= _buf_used <= _buf_num],
    [0 <= _buf_head < _buf_num], and every run of admissible events
    (deliveries no longer than a slot, requests that are not negative,
    start, stop, the end of the asynchronous read) from the constructed
    object is defined and ends in an object that satisfies it. *)
Theorem ring_invariant_maintained
    (lexical_cast : string -> option Z) (dict : gmap string string)
    (open_ret : Z) (s0 : pluto_source_c) (evs : list event) :
  (forall v z, lexical_cast v = Some z -> in_uint32 z) ->
  pluto_source_c_ctor lexical_cast dict open_ret = Some s0 ->
  _buf_num s0 <= 2 ^ 31 ->
  Forall (admissible s0) evs ->
  ring_invariant s0
  /\ exists s t, run evs (s0, tally0) = Some (s, t) /\ ring_invariant s.
Proof.
  intros Hrange H Hsmall Hevs.
  pose proof (ctor_well_formed lexical_cast Hrange dict open_ret s0 H Hsmall) as W.
  split; [apply wf_ring_invariant, W|].
  assert (Hb : balanced s0 tally0).
  { destruct (ctor_fields lexical_cast dict open_ret s0 H)
      as [nb [nl [_ [_ [_ [_ [_ [_ [Eu _]]]]]]]]].
    unfold balanced, samples_buffered. rewrite Eu. cbn. lia. }
  destruct (run_invariant evs s0 tally0 W Hevs Hb) as [s [t [Hr [W' _]]]].
  exists s, t. split; [exact Hr|]. apply wf_ring_invariant, W'.
Qed.

(** C10.  Two objects that differ at most in [_lut] get the same outcome
    from [work]: the same return value and output, and successor objects
    that again differ at most in [_lut], each keeping its own table. *)
Theorem work_ignores_lut (s1 s2 : pluto_source_c) (n : Z) :
  lut_equiv s1 s2 ->
  match work n s1, work n s2 with
  | Some (r1, s1'), Some (r2, s2') =>
      r1 = r2 /\ lut_equiv s1' s2' /\ _lut s1' = _lut s1 /\ _lut s2' = _lut s2
  | None, None => True
  | _, _ => False
  end.
Proof.
  unfold lut_equiv. intros E.
  assert (H1 : work n s1
               = (fun r => (r.1, set_lut (_lut s1) r.2)) <$> work n (set_lut [] s2)).
  { rewrite <- E, <- work_set_lut.
    change (set_lut (_lut s1) (set_lut [] s1)) with (set_lut (_lut s1) s1).
    rewrite set_lut_own. reflexivity. }
  assert (H2 : work n s2
               = (fun r => (r.1, set_lut (_lut s2) r.2)) <$> work n (set_lut [] s2)).
  { rewrite <- work_set_lut.
    change (set_lut (_lut s2) (set_lut [] s2)) with (set_lut (_lut s2) s2).
    rewrite set_lut_own. reflexivity. }
  rewrite H1, H2.
  destruct (work n (set_lut [] s2)) as [[r s']|]; cbn; [|exact I].
  repeat split.
Qed.

(** ** The claims on the example configuration *)

Lemma example_fresh_constructed :
  pluto_source_c_ctor decimal_uint example_dict 0 = Some example_fresh.
Proof. by_computation. Qed.

Example example_primed_counters :
  (_buf_head example_primed, _buf_used example_primed,
   _skipped example_primed, _running example_primed) = (0, 3, 1, true).
Proof. by_computation. Qed.

Example example_overflow_run :
  (fun s => (_buf_head s, _buf_used s, cerr s))
    <$> deliver [example_block x04; example_block x05; example_block x06]
          example_primed
  = Some (2, 4, cerr example_fresh +:+ "OO").
Proof. by_computation. Qed.

Lemma push_drops_oldest_witness :
  exists s1 s2,
    deliver [example_block x04; example_block x05] example_primed = Some s1
    /\ plutosdr_callback (example_block x06) s1 = Some s2
    /\ _buf_used s2 <= _buf_num example_primed.
Proof.
  destruct (push_drops_oldest example_primed
              [example_block x04; example_block x05] (example_block x06))
    as (s1 & s2 & H1 & H2 & _ & _ & _ & H3 & _).
  - apply well_formedb_true. by_computation.
  - apply Z.leb_le. by_computation.
  - repeat constructor; apply Z.leb_le; by_computation.
  - exists s1, s2. split; [exact H1|]. split; [exact H2|exact H3].
Defined.

Lemma first_delivery_discarded_witness :
  deliver [example_block x00; example_block x01] example_fresh
  = push_all [example_block x01] (set_skipped 1 example_fresh)
  /\ exists s1 s2,
       deliver [example_block x00; example_block x01] example_fresh = Some s1
       /\ _buf_used s1 = Z.min (_buf_num example_fresh) 1
       /\ plutosdr_callback (example_block x02) s1 = Some s2
       /\ _buf s2 !! Z.to_nat ((_buf_head s1 + _buf_used s1) mod _buf_num s1)
          = Some (example_block x02).
Proof.
  destruct (first_delivery_discarded decimal_uint example_dict 0 example_fresh
              (example_block x00) [example_block x01] (example_block x02))
    as (_ & _ & _ & _ & _ & H & Hpush).
  - by_computation.
  - split; [exact H|].
    destruct Hpush as (s1 & s2 & H1 & H2 & _ & H3 & _ & H4 & _).
    + exact decimal_uint_range.
    + apply Z.leb_le. by_computation.
    + repeat constructor; apply Z.leb_le; by_computation.
    + exists s1, s2. split; [exact H1|]. split; [exact H2|].
      split; [exact H3|]. apply H4. by_computation.
Defined.

(** The first delivery leaves the ring empty, the second fills slot 0. *)
Example example_skip_then_push :
  (fun s => (_buf_head s, _buf_used s, _skipped s, _buf s !! 0%nat))
    <$> deliver [example_block x07; example_block x08] example_fresh
  = Some (0, 1, 1, Some (example_block x08)).
Proof. by_computation. Qed.

Lemma ctor_buffer_configuration_witness :
  _buf_num example_fresh = (if 4 =? 0 then 15 else 4)
  /\ _buf_len example_fresh = 512.
Proof.
  destruct (ctor_buffer_configuration decimal_uint example_dict 0 example_fresh)
    as (_ & _ & Hn & _ & Hl).
  - by_computation.
  - split.
    + apply (Hn "4"%string 4); by_computation.
    + apply (Hl "512"%string 512); [by_computation|by_computation|].
      split; [discriminate|reflexivity].
Defined.

(** The constructor forces the default length on [buflen=0], a multiple of
    512: the length is not "forced exactly when the value is not a multiple
    of 512, and otherwise the supplied value". *)
Lemma buflen_zero_forced_to_default :
  decimal_uint "0" = Some 0
  /\ 0 mod 512 = 0
  /\ _buf_len <$> pluto_source_c_ctor decimal_uint {[ "buflen" := "0" ]} 0
     = Some 819200
  /\ ~ (forall s,
          pluto_source_c_ctor decimal_uint {[ "buflen" := "0" ]} 0 = Some s ->
          (_buf_len s = BUF_LEN <-> 0 mod 512 <> 0)
          /\ (0 mod 512 = 0 -> _buf_len s = 0)).
Proof.
  assert (E : _buf_len <$> pluto_source_c_ctor decimal_uint {[ "buflen" := "0" ]} 0
              = Some 819200) by reflexivity.
  split; [reflexivity|]. split; [reflexivity|]. split; [exact E|].
  intros H.
  destruct (pluto_source_c_ctor decimal_uint {[ "buflen" := "0" ]} 0) as [s|];
    [|discriminate].
  injection E as E. destruct (H s eq_refl) as [_ H0].
  specialize (H0 eq_refl). lia.
Qed.

Lemma ring_invariant_maintained_witness :
  ring_invariant example_fresh
  /\ exists s t,
       run (example_events ++ [Ev_work 256; Ev_stop; Ev_work 1])
           (example_fresh, tally0) = Some (s, t)
       /\ ring_invariant s.
Proof.
  apply (ring_invariant_maintained decimal_uint example_dict 0).
  - exact decimal_uint_range.
  - by_computation.
  - apply Z.leb_le. by_computation.
  - apply admissibleb_true. by_computation.
Defined.

(** After [stop], [work] signals end-of-stream although three unread blocks
    remain in the ring. *)
Lemma done_while_blocks_remain :
  fst <$> run (example_events ++ [Ev_stop]) (example_fresh, tally0)
  = Some example_stopped
  /\ _running example_stopped = false
  /\ _buf_used example_stopped = 3
  /\ work 10 example_stopped = Some (Returned WORK_DONE [], example_stopped)
  /\ ~ (signals_done 10 example_stopped
        <-> (_running example_stopped = false /\ _buf_used example_stopped = 0)).
Proof.
  assert (Hr : _running example_stopped = false) by by_computation.
  assert (Hu : _buf_used example_stopped = 3) by by_computation.
  split; [by_computation|]. split; [exact Hr|]. split; [exact Hu|].
  split; [apply work_not_running, Hr|].
  intros [H _].
  destruct H as [_ H0].
  - exists example_stopped. apply work_not_running, Hr.
  - rewrite Hu in H0. discriminate.
Qed.

Lemma work_done_iff_not_running_witness :
  (signals_done 10 example_stopped <-> _running example_stopped = false)
  /\ (_running example_stopped = false ->
      work 10 example_stopped = Some (Returned WORK_DONE [], example_stopped))
  /\ (_running example_stopped = false -> ~ blocks 10 example_stopped).
Proof.
  apply (work_done_iff_not_running example_stopped 10).
  - apply well_formedb_true. by_computation.
  - lia.
Defined.

(** A later call of [work] waits although one filled block is buffered: the
    previous call returned 256 samples and left one block. *)
Lemma later_call_blocks_with_data :
  (fun st => (st.1, produced st.2))
    <$> run (example_events ++ [Ev_work 256]) (example_fresh, tally0)
  = Some (example_drained, 256)
  /\ _running example_drained = true
  /\ _buf_used example_drained = 1
  /\ blocks 1 example_drained
  /\ ~ (1 <= _buf_used example_drained -> ~ blocks 1 example_drained).
Proof.
  assert (Hr : _running example_drained = true) by by_computation.
  assert (Hu : _buf_used example_drained = 1) by by_computation.
  assert (Hb : blocks 1 example_drained).
  { apply work_waits; [rewrite Hu; lia|exact Hr]. }
  split; [by_computation|]. split; [exact Hr|]. split; [exact Hu|].
  split; [exact Hb|]. intros H. apply H; [rewrite Hu; lia|exact Hb].
Qed.

Lemma work_blocks_iff_below_prefill_witness :
  (blocks 1 example_drained
   <-> (_buf_used example_drained < 3 /\ _running example_drained = true))
  /\ (forall s', work 1 example_drained = Some (Blocked, s') -> s' = example_drained)
  /\ (~ (_buf_used example_drained < 3 /\ _running example_drained = true) ->
      exists ret out s', work 1 example_drained = Some (Returned ret out, s')).
Proof.
  apply (work_blocks_iff_below_prefill example_drained 1).
  - apply well_formedb_true. by_computation.
  - lia.
Defined.


Example example_first_samples :
  (fun r => match r.1 with
            | Returned ret out => (ret, complex_view out)
            | Blocked => (0, [])
            end) <$> work 2 example_primed
  = Some (2, [(convert_point scaling 257, convert_point scaling 257);
              (convert_point scaling 257, convert_point scaling 257)]).
Proof. by_computation. Qed.

(** A block holding the codes -32768, 32767, 0 and 1 comes out as -16,
    32767/2048, 0 and 1/2048. *)
Example example_round_trip :
  (fun st => complex_view (emitted st.2))
    <$> run [Ev_start; Ev_callback (example_block x00);
             Ev_callback ([x00; x80; xff; x7f; x00; x00; x01; x00]
                          ++ replicate 504 x00);
             Ev_callback (example_block x00); Ev_callback (example_block x00);
             Ev_work 2]
          (example_fresh, tally0)
  = Some [(S754_finite true 8388608 (-19), S754_finite false 16776704 (-20));
          (S754_zero false, S754_finite false 8388608 (-34))].
Proof. by_computation. Qed.

Lemma samples_match_blocks_witness :
  exists s t,
    run (example_events ++ [Ev_work 256; Ev_callback (example_block x04);
                            Ev_callback (example_block x05); Ev_work 1000])
        (example_fresh, tally0) = Some (s, t)
    /\ (_buf_used s = 0 ->
        produced t = (pushed t - dropped t) * (_buf_len example_fresh / BYTES_PER_SAMPLE)).
Proof.
  destruct (samples_match_blocks example_fresh
              (example_events ++ [Ev_work 256; Ev_callback (example_block x04);
                                  Ev_callback (example_block x05); Ev_work 1000])
              128)
    as (s & t & Hrun & _ & Hdone & _).
  - apply well_formedb_true. by_computation.
  - reflexivity.
  - apply admissibleb_true. by_computation.
  - lia.
  - exists s, t. split; [exact Hrun|exact Hdone].
Defined.

Example example_all_consumed :
  (fun st => (_buf_used st.1, pushed st.2, dropped st.2, produced st.2))
    <$> run (example_events ++ [Ev_work 256; Ev_callback (example_block x04);
                                Ev_callback (example_block x05); Ev_work 1000])
          (example_fresh, tally0)
  = Some (0, 5, 0, 640).
Proof. by_computation. Qed.

Lemma work_ignores_lut_witness :
  match work 200 example_primed, work 200 (set_lut [] example_primed) with
  | Some (r1, s1'), Some (r2, s2') =>
      r1 = r2 /\ lut_equiv s1' s2'
      /\ _lut s1' = _lut example_primed
      /\ _lut s2' = _lut (set_lut [] example_primed)
  | None, None => True
  | _, _ => False
  end.
Proof.
  apply (work_ignores_lut example_primed (set_lut [] example_primed) 200).
  reflexivity.
Defined.

(** ** start and stop on the members *)

(** On the members of the object a second [stop] changes nothing and again
    returns [true]; what the cancel request and the join do is the business
    of the driver and of the thread library. *)
Lemma stop_members_idempotent s : stop (stop s).2 = stop s.
Proof. reflexivity. Qed.

Lemma start_then_stop_members s :
  _running (stop (start s).2).2 = false /\ _running (start (stop s).2).2 = true.
Proof. split; reflexivity. Qed.

(** * Further properties of the code *)

(** ** Strings written to cerr *)

Lemma append_nil_r (a : string) : a +:+ EmptyString = a.
Proof.
  induction a as [|c a IH]; [reflexivity|].
  change (String c (a +:+ EmptyString) = String c a). f_equal. exact IH.
Qed.

Lemma append_assoc (a b c : string) : (a +:+ b) +:+ c = a +:+ (b +:+ c).
Proof.
  induction a as [|x a IH]; [reflexivity|].
  change (String x ((a +:+ b) +:+ c) = String x (a +:+ (b +:+ c))).
  f_equal. exact IH.
Qed.

Lemma append_same_prefix (a b c : string) : a +:+ b = a +:+ c -> b = c.
Proof.
  induction a as [|x a IH]; intros H; [exact H|].
  change (String x (a +:+ b) = String x (a +:+ c)) in H.
  injection H as H. apply IH, H.
Qed.

Lemma append_grows (a b : string) : a +:+ b = a -> b = EmptyString.
Proof.
  intros H. apply (append_same_prefix a). rewrite append_nil_r. exact H.
Qed.

(** ** Lists: the latest elements *)

Lemma latest_all {A} n (l : list A) : (length l <= n)%nat -> latest n l = l.
Proof.
  intros H. unfold latest. replace (length l - n)%nat with 0%nat by lia.
  reflexivity.
Qed.

Lemma latest_length {A} n (l : list A) :
  length (latest n l) = Nat.min n (length l).
Proof. unfold latest. rewrite length_drop. lia. Qed.

Lemma latest_app {A} n (a b : list A) :
  latest n (latest n a ++ b) = latest n (a ++ b).
Proof.
  destruct (Nat.le_gt_cases (length a) n) as [H|H].
  - rewrite (latest_all n a H). reflexivity.
  - unfold latest. rewrite !length_app, length_drop.
    rewrite <- (drop_app_le a b (length a - n)) by lia.
    rewrite drop_drop. f_equal. lia.
Qed.

Lemma latest_snoc_full {A} n (l : list A) x :
  (0 < n)%nat -> length l = n -> latest n (l ++ [x]) = tail l ++ [x].
Proof.
  intros Hn Hl. unfold latest. rewrite length_app. cbn [length].
  replace (length l + 1 - n)%nat with 1%nat by lia.
  destruct l as [|y l]; [cbn in Hl; lia|]. reflexivity.
Qed.

Lemma overflow_marks_S n : overflow_marks (S n) = "O" +:+ overflow_marks n.
Proof.
  induction n as [|n IH]; [reflexivity|].
  change (overflow_marks (S (S n))) with (overflow_marks (S n) +:+ "O").
  rewrite IH at 1. rewrite append_assoc. reflexivity.
Qed.

(** ** The ring keeps the latest blocks *)

Lemma push_whole_step buf s s' :
  well_formed s ->
  Z.of_nat (length buf) = _buf_len s ->
  plutosdr_callback_push buf s = Some s' ->
  filled_blocks s' = latest (Z.to_nat (_buf_num s)) (filled_blocks s ++ [buf])
  /\ _buf_used s' = Z.min (_buf_num s) (_buf_used s + 1)
  /\ _buf_head s'
     = (_buf_head s + (if _buf_used s =? _buf_num s then 1 else 0)) mod _buf_num s
  /\ cerr s'
     = cerr s +:+ (if _buf_used s =? _buf_num s then "O" else EmptyString)
  /\ _buf_offset s' = _buf_offset s
  /\ _samp_avail s' = _samp_avail s.
Proof.
  intros W Hlen H.
  pose proof (wf_num s W) as HN. pose proof (wf_used s W) as Hu.
  pose proof (wf_head s W) as Hh.
  rewrite (push_store buf s W ltac:(lia)) in H.
  pose proof (filled_blocks_length s) as Hfl.
  destruct (Z.eqb_spec (_buf_used s) (_buf_num s)) as [E|E]; injection H as <-.
  - rewrite (filled_blocks_push_full buf s W E), (stored_whole buf s W Hlen).
    rewrite latest_snoc_full by lia.
    cbn [_buf_used _buf_head _buf_offset _samp_avail cerr set_buf_head print
         after_store set_buf].
    rewrite E. repeat split; first [reflexivity | lia].
  - rewrite (filled_blocks_push_room buf s W ltac:(lia)), (stored_whole buf s W Hlen).
    rewrite latest_all by (rewrite length_app; cbn [length]; lia).
    cbn [_buf_used _buf_head _buf_offset _samp_avail cerr set_buf_used
         after_store set_buf].
    rewrite append_nil_r, Z.add_0_r, Z.mod_small by lia.
    repeat split; first [reflexivity | lia].
Qed.

(** X1.  Deliveries of whole blocks with no consumption in between: the
    queue of unread blocks is made of the latest [_buf_num] blocks among
    those that were unread and those delivered, oldest first; the used
    count saturates at [_buf_num]; one overflow mark is written and the head
    moves one slot for every block beyond the capacity; the consumer cursor
    is untouched. *)
Theorem ring_keeps_latest_blocks (s : pluto_source_c) (bufs : list (list byte)) :
  well_formed s ->
  BUF_SKIP <= _skipped s ->
  Forall (fun b => Z.of_nat (length b) = _buf_len s) bufs ->
  let over := Z.to_nat (_buf_used s + Z.of_nat (length bufs) - _buf_num s) in
  exists s',
    deliver bufs s = Some s'
    /\ filled_blocks s' = latest (Z.to_nat (_buf_num s)) (filled_blocks s ++ bufs)
    /\ _buf_used s' = Z.min (_buf_num s) (_buf_used s + Z.of_nat (length bufs))
    /\ _buf_head s' = (_buf_head s + Z.of_nat over) mod _buf_num s
    /\ cerr s' = cerr s +:+ overflow_marks over
    /\ _buf_offset s' = _buf_offset s
    /\ _samp_avail s' = _samp_avail s.
Proof.
  revert s. induction bufs as [|buf bufs IH]; intros s W Hs HF over.
  - pose proof (wf_num s W) as HN. pose proof (wf_used s W) as Hu.
    pose proof (wf_head s W) as Hh.
    exists s. unfold over. cbn [deliver length].
    replace (Z.to_nat (_buf_used s + Z.of_nat 0 - _buf_num s)) with 0%nat by lia.
    rewrite app_nil_r, latest_all by (rewrite filled_blocks_length; lia).
    cbn [overflow_marks]. rewrite append_nil_r.
    rewrite !Z.add_0_r, Z.mod_small by lia.
    repeat split; try reflexivity; try lia.
  - inversion HF as [|? ? Hb Hbs]; subst.
    pose proof (wf_num s W) as HN. pose proof (wf_used s W) as Hu.
    destruct (callback_defined buf s W ltac:(lia)) as [s1 E1].
    pose proof (callback_well_formed buf s s1 W ltac:(lia) E1) as W1.
    pose proof E1 as E1'. rewrite (callback_after_skip buf s Hs) in E1'.
    destruct (push_buffered buf s s1 W ltac:(lia) E1') as [El [En [Es _]]].
    destruct (push_whole_step buf s s1 W Hb E1') as [Hf1 [Hu1 [Hh1 [Hc1 [Ho1 Ha1]]]]].
    destruct (IH s1 W1) as [s' [E' [Hf' [Hu' [Hh' [Hc' [Ho' Ha']]]]]]].
    + lia.
    + rewrite El. exact Hbs.
    + exists s'. cbn [deliver]. rewrite E1. cbn [mbind option_bind].
      split; [exact E'|]. rewrite En in *.
      split; [|split; [|split; [|split; [|split]]]].
      * rewrite Hf', Hf1, latest_app, <- app_assoc. reflexivity.
      * rewrite Hu', Hu1. cbn [length]. lia.
      * rewrite Hh', Hh1, Zplus_mod_idemp_l. f_equal. unfold over. cbn [length].
        rewrite Hu1. destruct (Z.eqb_spec (_buf_used s) (_buf_num s)); lia.
      * rewrite Hc', Hc1, append_assoc. f_equal. unfold over. cbn [length].
        rewrite Hu1.
        destruct (Z.eqb_spec (_buf_used s) (_buf_num s)) as [E|E].
        -- replace (Z.to_nat (_buf_used s + Z.of_nat (S (length bufs)) - _buf_num s))
             with (S (Z.to_nat (Z.min (_buf_num s) (_buf_used s + 1)
                                + Z.of_nat (length bufs) - _buf_num s))) by lia.
           rewrite overflow_marks_S. reflexivity.
        -- replace (Z.to_nat (_buf_used s + Z.of_nat (S (length bufs)) - _buf_num s))
             with (Z.to_nat (Z.min (_buf_num s) (_buf_used s + 1)
                             + Z.of_nat (length bufs) - _buf_num s)) by lia.
           reflexivity.
      * congruence.
      * congruence.
Qed.

(** ** What a delivery does to the bytes awaiting conversion *)

Lemma filled_concat_length s :
  well_formed s ->
  Z.of_nat (length (concat (filled_blocks s))) = _buf_used s * _buf_len s.
Proof.
  intros W.
  pose proof (concat_slots_length _ _ (filled_blocks_slot_len s W)) as Hc.
  rewrite filled_blocks_length in Hc. pose proof (wf_used s W).
  rewrite Z2Nat.id in Hc by lia. exact Hc.
Qed.

Lemma offset_bytes_bound s :
  well_formed s -> 0 < _buf_used s ->
  0 <= 4 * _buf_offset s < _buf_len s.
Proof.
  intros W Hu. destruct (wf_capacity s W) as [Hc Hb].
  pose proof (wf_offset s W). pose proof (wf_cursor s W). pose proof (wf_avail s W).
  lia.
Qed.

(** X2.  A delivery shorter than a slot, pushed into a ring with room,
    still counts as one whole block: the bytes awaiting conversion gain the
    delivered bytes followed by what the slot held before beyond them, and
    the buffered samples grow by [_buf_len / 4]. *)
Theorem short_delivery_keeps_stale_tail
    (s s' : pluto_source_c) (buf : list byte) :
  well_formed s ->
  BUF_SKIP <= _skipped s ->
  _buf_used s < _buf_num s ->
  Z.of_nat (length buf) <= _buf_len s ->
  plutosdr_callback buf s = Some s' ->
  pending_bytes s'
  = pending_bytes s ++ buf
    ++ drop (length buf)
         (_buf s !!! Z.to_nat ((_buf_head s + _buf_used s) mod _buf_num s))
  /\ samples_buffered s' = samples_buffered s + _buf_len s / BYTES_PER_SAMPLE
  /\ _buf_used s' = _buf_used s + 1.
Proof.
  intros W Hs Hroom Hlen H.
  rewrite (callback_after_skip buf s Hs) in H.
  destruct (push_buffered buf s s' W Hlen H) as [_ [_ [_ [_ Hb]]]].
  destruct (Z.eqb_spec (_buf_used s) (_buf_num s)) as [|_]; [lia|].
  split; [|split; [exact Hb|]].
  - rewrite (push_store buf s W Hlen) in H.
    destruct (Z.eqb_spec (_buf_used s) (_buf_num s)); [lia|].
    injection H as <-. unfold pending_bytes.
    rewrite (filled_blocks_push_room buf s W Hroom).
    cbn [_buf_offset set_buf_used after_store set_buf].
    rewrite concat_app. cbn [concat]. rewrite app_nil_r.
    fold (tail_index s). fold (stored buf s).
    apply drop_app_le.
    pose proof (filled_concat_length s W) as Hc.
    pose proof (wf_used s W) as Hu. pose proof (wf_offset s W) as Ho.
    destruct (Z.eq_dec (_buf_used s) 0) as [E|E].
    + rewrite (wf_idle s W E). cbn. lia.
    + pose proof (offset_bytes_bound s W ltac:(lia)). nia.
  - rewrite (push_store buf s W Hlen) in H.
    destruct (Z.eqb_spec (_buf_used s) (_buf_num s)); [lia|].
    injection H as <-. reflexivity.
Qed.

(** X3.  A push into a full ring of at least two slots discards the oldest
    [_buf_len] bytes awaiting conversion and appends the new block.  When
    the block at the head was partly consumed, the discarded bytes are its
    unread rest and the first [_buf_offset] samples of the next block; the
    number of buffered samples does not change. *)
Theorem overflow_discards_oldest_pending_bytes
    (s s' : pluto_source_c) (buf : list byte) :
  well_formed s ->
  BUF_SKIP <= _skipped s ->
  _buf_used s = _buf_num s ->
  2 <= _buf_num s ->
  Z.of_nat (length buf) = _buf_len s ->
  plutosdr_callback buf s = Some s' ->
  pending_bytes s' = drop (Z.to_nat (_buf_len s)) (pending_bytes s) ++ buf
  /\ samples_buffered s' = samples_buffered s
  /\ _buf_offset s' = _buf_offset s.
Proof.
  intros W Hs Hfull HN Hlen H.
  rewrite (callback_after_skip buf s Hs) in H.
  destruct (push_buffered buf s s' W ltac:(lia) H) as [_ [_ [_ [_ Hb]]]].
  destruct (Z.eqb_spec (_buf_used s) (_buf_num s)) as [_|]; [|lia].
  rewrite (push_store buf s W ltac:(lia)) in H.
  destruct (Z.eqb_spec (_buf_used s) (_buf_num s)) as [_|]; [|lia].
  injection H as <-.
  split; [|split; [exact Hb|reflexivity]].
  unfold pending_bytes.
  rewrite (filled_blocks_push_full buf s W Hfull), (stored_whole buf s W Hlen).
  cbn [_buf_offset set_buf_head print after_store set_buf].
  pose proof (filled_blocks_slot_len s W) as HF.
  pose proof (filled_blocks_length s) as Hl.
  destruct (filled_blocks s) as [|b1 rest] eqn:Ef; [cbn in Hl; lia|].
  inversion HF as [|? ? Hb1 Hrest]; subst.
  cbn [tail concat]. rewrite concat_app. cbn [concat]. rewrite app_nil_r.
  pose proof (concat_slots_length _ _ Hrest) as Hc.
  cbn [length] in Hl.
  pose proof (offset_bytes_bound s W ltac:(lia)) as Hob.
  rewrite drop_drop.
  replace (Z.to_nat (4 * _buf_offset s) + Z.to_nat (_buf_len s))%nat
    with (length b1 + Z.to_nat (4 * _buf_offset s))%nat by lia.
  rewrite <- drop_drop, drop_app_length.
  apply drop_app_le. nia.
Qed.

(** X4.  On a well-formed object the push is undefined exactly when the
    delivered block is longer than a slot: the copy then runs past the end
    of the slot; every other access of the push stays inside the ring. *)
Theorem push_overruns_iff_too_long (s : pluto_source_c) (buf : list byte) :
  well_formed s ->
  (plutosdr_callback_push buf s = None <-> _buf_len s < Z.of_nat (length buf)).
Proof.
  intros W. split.
  - intros H. destruct (Z.lt_ge_cases (_buf_len s) (Z.of_nat (length buf)))
      as [Hlong|Hfits]; [exact Hlong|].
    rewrite (push_store buf s W ltac:(lia)) in H.
    destruct (_buf_used s =? _buf_num s); discriminate.
  - intros Hlong. unfold plutosdr_callback_push.
    pose proof (wf_num s W) as HN. pose proof (wf_head s W) as Hh.
    pose proof (wf_used s W) as Hu. pose proof (tail_index_range s W) as Ht.
    destruct (Z.eqb_spec (_buf_num s) 0) as [|_]; [lia|].
    rewrite (uint32_id (_buf_head s + _buf_used s)) by lia.
    fold (tail_index s). rewrite (int32_id (tail_index s)) by lia.
    destruct (Z.ltb_spec (tail_index s) 0) as [|_]; [lia|].
    destruct (wf_slot_lookup s (tail_index s) W Ht) as [slot [Hsl Hl]].
    rewrite Hsl. cbn [mbind option_bind]. unfold memcpy.
    destruct (Nat.leb_spec (length buf) (length slot)); [lia|reflexivity].
Qed.

(** ** Requests and what they leave behind *)

Lemma state_ext (s1 s2 : pluto_source_c) :
  _buf s1 = _buf s2 -> _buf_num s1 = _buf_num s2 -> _buf_len s1 = _buf_len s2 ->
  _buf_head s1 = _buf_head s2 -> _buf_used s1 = _buf_used s2 ->
  _buf_offset s1 = _buf_offset s2 -> _samp_avail s1 = _samp_avail s2 ->
  _running s1 = _running s2 -> _skipped s1 = _skipped s2 ->
  _lut s1 = _lut s2 -> cerr s1 = cerr s2 ->
  s1 = s2.
Proof. destruct s1, s2; cbn; intros; subst; reflexivity. Qed.

(** X5.  A call of [work] that gets past the wait either serves the whole
    request, when that many samples are buffered, or returns all that is
    buffered and leaves the ring empty with the cursor at the start of a
    block.  A request of zero samples changes nothing. *)
Theorem work_serves_request_or_drains (s : pluto_source_c) (n : Z) :
  well_formed s -> _running s = true -> 3 <= _buf_used s -> 0 <= n < 2 ^ 31 ->
  exists ret out s',
    work n s = Some (Returned ret out, s')
    /\ (n <= samples_buffered s ->
        ret = n /\ samples_buffered s' = samples_buffered s - n)
    /\ (samples_buffered s <= n ->
        ret = samples_buffered s
        /\ _buf_used s' = 0 /\ _buf_offset s' = 0
        /\ _samp_avail s' = _buf_len s / BYTES_PER_SAMPLE
        /\ pending_bytes s' = [])
    /\ (n = 0 -> out = [] /\ s' = s).
Proof.
  intros W Hr Hu Hn.
  destruct (work_drains n s W Hn Hu Hr) as [s' [Hw [W' [Hp [Hst [Eu [Eo Eh]]]]]]].
  pose proof (samples_buffered_nonneg s W) as Hb0.
  pose proof (wf_buffered s W) as Hb.
  destruct (wf_capacity s W) as [Hc Hcap].
  assert (El : _buf_len s' = _buf_len s) by apply Hst.
  eexists _, _, s'. split; [exact Hw|]. split; [|split].
  - intros Hle. split; [lia|].
    rewrite (samples_buffered_after s s' _ W W' El Eu Eo). lia.
  - intros Hge.
    assert (Ek : Z.min n (samples_buffered s) = samples_buffered s) by lia.
    rewrite Ek in *.
    assert (Esum : _buf_offset s + samples_buffered s
                   = _buf_used s * (_buf_len s / BYTES_PER_SAMPLE)) by lia.
    rewrite Esum in Eu, Eo.
    rewrite Z.div_mul in Eu by lia. rewrite Z.mod_mul in Eo by lia.
    split; [reflexivity|]. split; [lia|]. split; [exact Eo|]. split.
    + pose proof (wf_cursor s' W'). rewrite El in *. lia.
    + apply length_zero_iff_nil.
      pose proof (pending_bytes_length s' W') as Hl.
      unfold samples_buffered in Hl.
      destruct (Z.eqb_spec (_buf_used s') 0); lia.
  - intros ->. unfold work in Hw. rewrite Hr in Hw.
    destruct (Z.ltb_spec (_buf_used s) 3); [lia|]. cbn [andb negb] in Hw.
    rewrite work_loop_done in Hw by reflexivity.
    cbn [mbind option_bind] in Hw.
    injection Hw as _ Hout Hs. split; [|symmetry; exact Hs].
    replace (Z.min 0 (samples_buffered s)) with 0 by lia. reflexivity.
Qed.

(** X6.  Splitting a request does not change the stream: when a first call
    takes [k1] samples and leaves at least three blocks, a second call for
    [n2] continues where the first stopped, and the two outputs joined, the
    two counts added and the final object are those of a single call for
    [n1 + n2]. *)
Theorem work_split_request
    (s s1 : pluto_source_c) (n1 n2 k1 : Z) (out1 : list float32) :
  well_formed s -> _running s = true -> 3 <= _buf_used s ->
  0 <= n1 -> 0 <= n2 -> n1 + n2 < 2 ^ 31 ->
  work n1 s = Some (Returned k1 out1, s1) ->
  3 <= _buf_used s1 ->
  exists k2 out2 s2,
    work n2 s1 = Some (Returned k2 out2, s2)
    /\ work (n1 + n2) s = Some (Returned (k1 + k2) (out1 ++ out2), s2).
Proof.
  intros W Hr Hu Hn1 Hn2 Hsum Hw1 Hu1.
  destruct (work_drains n1 s W ltac:(lia) Hu Hr)
    as [s1' [Hw1' [W1 [Hp1 [Hst1 [Eu1 [Eo1 Eh1]]]]]]].
  rewrite Hw1 in Hw1'. injection Hw1' as Ek1 Eout1 Es1. subst s1'.
  assert (Hr1 : _running s1 = true) by (destruct Hst1 as (_ & _ & _ & -> & _); exact Hr).
  assert (El1 : _buf_len s1 = _buf_len s) by apply Hst1.
  assert (En1 : _buf_num s1 = _buf_num s) by apply Hst1.
  destruct (work_drains n2 s1 W1 ltac:(lia) Hu1 Hr1)
    as [s2 [Hw2 [W2 [Hp2 [Hst2 [Eu2 [Eo2 Eh2]]]]]]].
  destruct (work_drains (n1 + n2) s W ltac:(lia) Hu Hr)
    as [s3 [Hw3 [W3 [Hp3 [Hst3 [Eu3 [Eo3 Eh3]]]]]]].
  pose proof (samples_buffered_nonneg s W) as Hb0.
  pose proof (samples_buffered_after s s1 _ W W1 El1 Eu1 Eo1) as Hb1.
  destruct (wf_capacity s W) as [Hc Hcap].
  pose proof (wf_offset s W) as Ho. pose proof (wf_num s W) as HN.
  set (B := samples_buffered s) in *.
  set (cap := _buf_len s / BYTES_PER_SAMPLE) in *.
  set (K1 := Z.min n1 B) in *.
  set (K2 := Z.min n2 (samples_buffered s1)) in *.
  assert (EK : Z.min (n1 + n2) B = K1 + K2) by (unfold K1, K2; lia).
  assert (HK1 : 0 <= K1) by (unfold K1; lia).
  assert (HK2 : 0 <= K2) by (unfold K2; lia).
  rewrite El1, En1 in *. fold cap in Eu2, Eo2, Eh2.
  rewrite EK in *.
  pose proof (Z.div_mod (_buf_offset s + K1) cap ltac:(lia)) as Hdm.
  pose proof (Z.mod_pos_bound (_buf_offset s + K1) cap ltac:(lia)) as Hmb.
  set (q := (_buf_offset s + K1) / cap) in *.
  set (r := (_buf_offset s + K1) mod cap) in *.
  assert (Esplit : _buf_offset s + (K1 + K2) = q * cap + (r + K2)) by lia.
  assert (Ediv : (_buf_offset s + (K1 + K2)) / cap = q + (r + K2) / cap).
  { rewrite Esplit. apply Z.div_add_l. lia. }
  assert (Emod : (_buf_offset s + (K1 + K2)) mod cap = (r + K2) mod cap).
  { rewrite Esplit, Z.add_comm. apply Z.mod_add. lia. }
  assert (Es : s3 = s2).
  { destruct Hst1 as (A1 & A2 & A3 & A4 & A5 & A6 & A7).
    destruct Hst2 as (B1 & B2 & B3 & B4 & B5 & B6 & B7).
    destruct Hst3 as (C1 & C2 & C3 & C4 & C5 & C6 & C7).
    assert (Eoff : _buf_offset s3 = _buf_offset s2).
    { rewrite Eo3, Eo2, Eo1, Emod. reflexivity. }
    apply state_ext; try congruence.
    - rewrite Eh3, Eh2, Eh1, Eo1, Ediv. fold q r.
      rewrite Zplus_mod_idemp_l. f_equal. lia.
    - rewrite Eu3, Eu2, Eu1, Eo1, Ediv. fold q r. lia.
    - pose proof (wf_cursor s3 W3) as H3. pose proof (wf_cursor s2 W2) as H2.
      replace (_buf_len s3) with (_buf_len s) in H3 by congruence.
      replace (_buf_len s2) with (_buf_len s) in H2 by congruence.
      lia. }
  subst s3.
  eexists _, _, s2. split; [exact Hw2|].
  rewrite Hw3. f_equal. f_equal. f_equal.
  - lia.
  - rewrite Eout1, Hp1.
    pose proof (pending_bytes_length s W) as Hlen. fold B in Hlen.
    rewrite <- (convert_bytes_app (2 * Z.to_nat K1)).
    + f_equal. rewrite take_take_drop. f_equal. lia.
    + rewrite length_take. unfold K1. lia.
Qed.

(** X7.  Every call of [work] on a well-formed object with a request that
    is not negative ends in a defined way: no read leaves a slot and the
    loop ends.  It never writes the slots nor the configuration, never
    raises the used count, and returns either [WORK_DONE] or a count between
    zero and the request, with two floats written per sample counted. *)
Theorem work_stays_in_bounds (s : pluto_source_c) (n : Z) :
  well_formed s -> 0 <= n < 2 ^ 31 ->
  exists r s',
    work n s = Some (r, s')
    /\ _buf s' = _buf s /\ _buf_num s' = _buf_num s /\ _buf_len s' = _buf_len s
    /\ _buf_used s' <= _buf_used s
    /\ match r with
       | Blocked => s' = s
       | Returned ret out =>
           (ret = WORK_DONE /\ out = [] /\ s' = s)
           \/ (0 <= ret <= n /\ Z.of_nat (length out) = 2 * ret)
       end.
Proof.
  intros W Hn.
  destruct (_running s) eqn:Hr.
  - destruct (Z.lt_ge_cases (_buf_used s) 3) as [Hu|Hu].
    + exists Blocked, s. rewrite work_waits by assumption.
      repeat split; first [reflexivity | lia].
    + destruct (work_drains n s W Hn Hu Hr) as [s' [Hw [W' [Hp [Hst [Eu [Eo Eh]]]]]]].
      pose proof (samples_buffered_nonneg s W) as Hb0.
      destruct (wf_capacity s W) as [Hc Hcap].
      pose proof (wf_offset s W) as Ho.
      eexists _, s'. split; [exact Hw|].
      split; [apply Hst|]. split; [apply Hst|]. split; [apply Hst|]. split.
      * rewrite Eu.
        assert (0 <= (_buf_offset s + Z.min n (samples_buffered s))
                     / (_buf_len s / BYTES_PER_SAMPLE)) by (apply Z.div_pos; lia).
        lia.
      * right. split; [lia|].
        pose proof (pending_bytes_length s W) as Hl.
        rewrite (convert_bytes_length (2 * Z.to_nat (Z.min n (samples_buffered s)))).
        -- lia.
        -- rewrite length_take. lia.
  - exists (Returned WORK_DONE []), s. rewrite work_not_running by assumption.
    repeat split; try reflexivity; try lia. left. repeat split.
Qed.

(** ** Runs after the stream has ended, and restarts *)

Lemma callback_keeps_flag buf s s' :
  well_formed s -> Z.of_nat (length buf) <= _buf_len s ->
  plutosdr_callback buf s = Some s' ->
  _running s' = _running s /\ _buf_len s' = _buf_len s
  /\ _skipped s' = (if _skipped s <? BUF_SKIP then _skipped s + 1 else _skipped s).
Proof.
  intros W Hlen H. unfold plutosdr_callback in H.
  pose proof (wf_skipped s W) as Hs. unfold BUF_SKIP in *.
  destruct (Z.ltb_spec (_skipped s) 1).
  - injection H as <-. cbn. rewrite uint32_id by lia. repeat split.
  - destruct (push_buffered buf s s' W Hlen H) as [El [_ [Es [Er _]]]].
    repeat split; assumption.
Qed.

(** X8.  Once [_running] is false (after [stop], or after the asynchronous
    read has returned) and until the next [start], no call of [work]
    produces a sample, whatever is buffered and whatever is still
    delivered: each one signals end-of-stream, and the flag stays false. *)
Theorem stopped_stream_yields_nothing
    (s : pluto_source_c) (t : tally) (evs : list event) :
  well_formed s -> _running s = false ->
  Forall (admissible s) evs ->
  forallb (fun ev => negb (is_start ev)) evs = true ->
  exists s' t',
    run evs (s, t) = Some (s', t')
    /\ _running s' = false
    /\ produced t' = produced t
    /\ emitted t' = emitted t.
Proof.
  intros W Hr Hevs Hns. revert s t W Hr Hevs.
  induction evs as [|ev evs IH]; intros s t W Hr Hevs.
  - exists s, t. repeat split; assumption.
  - cbn [forallb] in Hns. apply andb_prop in Hns as [Hev Hns].
    inversion Hevs as [|? ? Ha Has]; subst.
    assert (Hstep : exists s1 t1,
               step ev (s, t) = Some (s1, t1) /\ well_formed s1
               /\ _running s1 = false /\ produced t1 = produced t
               /\ emitted t1 = emitted t /\ _buf_len s1 = _buf_len s).
    { destruct ev as [| |ret|buf|n]; cbn [step admissible is_start negb] in *.
      - discriminate.
      - exists (set_running false s), t.
        split; [reflexivity|]. split; [apply set_running_well_formed, W|].
        repeat split.
      - exists (plutosdr_wait ret s), t.
        split; [reflexivity|]. split; [apply plutosdr_wait_well_formed, W|].
        unfold plutosdr_wait. destruct (negb (ret =? 0)); repeat split.
      - destruct (callback_defined buf s W Ha) as [s1 E1].
        pose proof (callback_well_formed buf s s1 W Ha E1) as W1.
        destruct (callback_keeps_flag buf s s1 W Ha E1) as [Er [El _]].
        rewrite E1. cbn [mbind option_bind]. eexists _, _.
        split; [reflexivity|]. split; [exact W1|]. split; [congruence|].
        destruct (_skipped s <? BUF_SKIP); repeat split; assumption.
      - rewrite (work_not_running n s Hr). cbn [mbind option_bind].
        eexists _, _. split; [reflexivity|]. split; [exact W|]. split; [exact Hr|].
        cbn. rewrite app_nil_r. repeat split. }
    destruct Hstep as [s1 [t1 [Hs [W1 [Hr1 [Hp1 [He1 El1]]]]]]].
    destruct (IH Hns s1 t1 W1 Hr1) as [s' [t' [Hrun [Hr' [Hp' He']]]]].
    + eapply Forall_impl; [exact Has|].
      intros e He. destruct e; cbn in *; try exact He. rewrite El1. exact He.
    + exists s', t'. cbn [run]. rewrite Hs. cbn [mbind option_bind].
      split; [exact Hrun|]. split; [exact Hr'|]. split; congruence.
Qed.

(** X9.  The skip window is not re-armed: [_skipped] is only reset by the
    constructor, so once the first delivery of an object has been skipped,
    every later delivery of any run is pushed into the ring, also after
    [stop] and a new [start]. *)
Theorem skip_window_not_rearmed
    (s : pluto_source_c) (t : tally) (evs : list event) :
  well_formed s -> _skipped s = BUF_SKIP ->
  Forall (admissible s) evs ->
  exists s' t',
    run evs (s, t) = Some (s', t')
    /\ _skipped s' = BUF_SKIP
    /\ pushed t' = pushed t + deliveries evs.
Proof.
  intros W Hsk Hevs. revert s t W Hsk Hevs.
  induction evs as [|ev evs IH]; intros s t W Hsk Hevs.
  - exists s, t. cbn [run deliveries]. repeat split; [assumption|lia].
  - inversion Hevs as [|? ? Ha Has]; subst.
    assert (Hstep : exists s1 t1,
               step ev (s, t) = Some (s1, t1) /\ well_formed s1
               /\ _skipped s1 = BUF_SKIP
               /\ pushed t1 = pushed t + (if is_callback ev then 1 else 0)
               /\ _buf_len s1 = _buf_len s).
    { destruct ev as [| |ret|buf|n]; cbn [step admissible is_callback] in *.
      - exists (set_running true s), t.
        split; [reflexivity|]. split; [apply set_running_well_formed, W|].
        repeat split; [assumption|lia].
      - exists (set_running false s), t.
        split; [reflexivity|]. split; [apply set_running_well_formed, W|].
        repeat split; [assumption|lia].
      - exists (plutosdr_wait ret s), t.
        split; [reflexivity|]. split; [apply plutosdr_wait_well_formed, W|].
        unfold plutosdr_wait. destruct (negb (ret =? 0)); cbn;
          repeat split; first [assumption | lia].
      - destruct (callback_defined buf s W Ha) as [s1 E1].
        pose proof (callback_well_formed buf s s1 W Ha E1) as W1.
        destruct (callback_keeps_flag buf s s1 W Ha E1) as [_ [El Es]].
        rewrite E1. cbn [mbind option_bind]. eexists _, _.
        split; [reflexivity|]. split; [exact W1|].
        destruct (Z.ltb_spec (_skipped s) BUF_SKIP); [lia|].
        cbn [count_push pushed]. repeat split; first [congruence | lia].
      - destruct (work_total n s W Ha) as [r [s1 [Hw [W1 [Hst _]]]]].
        rewrite Hw. cbn [mbind option_bind]. eexists _, _.
        split; [reflexivity|]. split; [exact W1|].
        destruct Hst as (_ & _ & El & _ & Es & _).
        split; [congruence|]. split; [|exact El].
        destruct r; cbn; lia. }
    destruct Hstep as [s1 [t1 [Hs [W1 [Hsk1 [Hp1 El1]]]]]].
    destruct (IH s1 t1 W1 Hsk1) as [s' [t' [Hrun [Hsk' Hp']]]].
    + eapply Forall_impl; [exact Has|].
      intros e He. destruct e; cbn in *; try exact He. rewrite El1. exact He.
    + exists s', t'. cbn [run deliveries]. rewrite Hs. cbn [mbind option_bind].
      split; [exact Hrun|]. split; [exact Hsk'|]. lia.
Qed.

(** ** More on the constructor *)

(** X10.  The constructor throws exactly when [buffers] or [buflen] is
    present with a value that [lexical_cast] rejects, or when the device
    does not open; absent keys and any accepted numbers never make it
    fail. *)
Theorem ctor_throws_iff
    (lexical_cast : string -> option Z) (dict : gmap string string)
    (open_ret : Z) :
  pluto_source_c_ctor lexical_cast dict open_ret = None
  <-> (exists v, dict !! "buffers" = Some v /\ lexical_cast v = None)
      \/ (exists v, dict !! "buflen" = Some v /\ lexical_cast v = None)
      \/ open_ret < 0.
Proof.
  unfold pluto_source_c_ctor, dict_uint. split.
  - intros H.
    destruct (dict !! "buffers") as [vb|] eqn:Eb.
    + destruct (lexical_cast vb) as [nb|] eqn:Ecb; [|left; eauto].
      cbn [mbind option_bind] in H.
      destruct (dict !! "buflen") as [vl|] eqn:El.
      * destruct (lexical_cast vl) as [nl|] eqn:Ecl; [|right; left; eauto].
        cbn [mbind option_bind] in H.
        destruct (Z.ltb_spec open_ret 0); [right; right; assumption|discriminate].
      * cbn [mbind option_bind] in H.
        destruct (Z.ltb_spec open_ret 0); [right; right; assumption|discriminate].
    + cbn [mbind option_bind] in H.
      destruct (dict !! "buflen") as [vl|] eqn:El.
      * destruct (lexical_cast vl) as [nl|] eqn:Ecl; [|right; left; eauto].
        cbn [mbind option_bind] in H.
        destruct (Z.ltb_spec open_ret 0); [right; right; assumption|discriminate].
      * cbn [mbind option_bind] in H.
        destruct (Z.ltb_spec open_ret 0); [right; right; assumption|discriminate].
  - intros [[v [E Ec]]|[[v [E Ec]]|Hneg]].
    + rewrite E, Ec. reflexivity.
    + rewrite E, Ec.
      destruct (dict !! "buffers") as [vb|]; [destruct (lexical_cast vb)|];
        reflexivity.
    + destruct (Z.ltb_spec open_ret 0) as [_|]; [|lia].
      destruct (dict !! "buffers") as [vb|]; [destruct (lexical_cast vb)|];
        cbn [mbind option_bind]; try reflexivity;
        (destruct (dict !! "buflen") as [vl|]; [destruct (lexical_cast vl)|]);
        reflexivity.
Qed.

Lemma lut_exact_all : forallb lut_exact_at (seq 0 256) = true.
Proof. vm_compute. reflexivity. Qed.

(** X11.  The lookup table the constructor builds has 256 entries; entry
    [i] is the float whose value is exactly [(i - 16698573/131072) / 128],
    [16698573/131072] being the float [127.4f]: neither the subtraction nor
    the division rounds.  Every entry lies strictly between -1 and 1. *)
Theorem ctor_lut_entries_exact
    (lexical_cast : string -> option Z) (dict : gmap string string)
    (open_ret : Z) (s : pluto_source_c) (i : nat) (x : float32) :
  pluto_source_c_ctor lexical_cast dict open_ret = Some s ->
  _lut s !! i = Some x ->
  length (_lut s) = 256%nat
  /\ Float32.denotes x (lut_value i)
  /\ (-1 < lut_value i)%Q /\ (lut_value i < 1)%Q.
Proof.
  intros H Hx.
  assert (El : _lut s = map lut_entry (seq 0 256)).
  { unfold pluto_source_c_ctor in H.
    destruct (dict_uint lexical_cast dict "buffers"); [|discriminate].
    destruct (dict_uint lexical_cast dict "buflen"); [|discriminate].
    cbn [mbind option_bind] in H.
    destruct (open_ret <? 0); [discriminate|]. injection H as <-. reflexivity. }
  rewrite El in *. clear El H.
  assert (Hi : (i < 256)%nat).
  { apply lookup_lt_Some in Hx. rewrite length_map, length_seq in Hx. exact Hx. }
  change (map lut_entry (seq 0 256)) with (lut_entry <$> seq 0 256) in Hx.
  rewrite list_lookup_fmap, lookup_seq_lt in Hx by exact Hi.
  cbn in Hx. injection Hx as <-.
  split; [rewrite length_map, length_seq; reflexivity|]. split.
  - apply denotesb_denotes.
    pose proof lut_exact_all as Hall. rewrite forallb_forall in Hall.
    apply Hall, in_seq. lia.
  - unfold lut_value, Qlt. cbn [Qnum Qden]. lia.
Qed.

Lemma ctor_cerr lexical_cast dict open_ret s :
  pluto_source_c_ctor lexical_cast dict open_ret = Some s ->
  cerr s
  = "Using device #0" +:+ endl
    +:+ (if negb (BUF_NUM =? _buf_num s) || negb (BUF_LEN =? _buf_len s)
         then "Using " +:+ pretty (_buf_num s) +:+ " buffers of size "
              +:+ pretty (_buf_len s) +:+ "." +:+ endl
         else EmptyString).
Proof.
  unfold pluto_source_c_ctor. intros H.
  destruct (dict_uint lexical_cast dict "buffers") as [nb|]; [|discriminate].
  destruct (dict_uint lexical_cast dict "buflen") as [nl|]; [|discriminate].
  cbn [mbind option_bind] in H.
  destruct (open_ret <? 0); [discriminate|]. injection H as <-. reflexivity.
Qed.

(** X12.  The constructor writes the line about the buffers to [cerr]
    exactly when the slot count or the slot length differs from the
    defaults 15 and 819200; a configuration that spells out the defaults
    writes only the device line. *)
Theorem ctor_reports_non_default_sizes
    (lexical_cast : string -> option Z) (dict : gmap string string)
    (open_ret : Z) (s : pluto_source_c) :
  pluto_source_c_ctor lexical_cast dict open_ret = Some s ->
  (cerr s = "Using device #0" +:+ endl
   <-> (_buf_num s = 15 /\ _buf_len s = 819200))
  /\ (cerr s = "Using device #0" +:+ endl
      \/ cerr s = "Using device #0" +:+ endl +:+ "Using " +:+ pretty (_buf_num s)
                  +:+ " buffers of size " +:+ pretty (_buf_len s) +:+ "." +:+ endl).
Proof.
  intros H. rewrite (ctor_cerr _ _ _ _ H).
  assert (Hgrow : forall r : string,
            "Using device #0" +:+ endl +:+ r = "Using device #0" +:+ endl ->
            r = EmptyString).
  { intros r E. rewrite <- append_assoc in E. apply append_grows in E. exact E. }
  assert (EL : BUF_LEN = 819200) by reflexivity. assert (EN : BUF_NUM = 15) by reflexivity.
  destruct (Z.eqb_spec BUF_NUM (_buf_num s)) as [En|En];
    destruct (Z.eqb_spec BUF_LEN (_buf_len s)) as [El|El]; cbn [negb orb].
  - split; [|left; rewrite <- append_assoc; apply append_nil_r].
    split; [intros _; split; congruence|].
    intros _. rewrite <- append_assoc. apply append_nil_r.
  - split; [|right; reflexivity]. split.
    + intros E. apply Hgrow in E. discriminate.
    + intros [_ E]. congruence.
  - split; [|right; reflexivity]. split.
    + intros E. apply Hgrow in E. discriminate.
    + intros [E _]. congruence.
  - split; [|right; reflexivity]. split.
    + intros E. apply Hgrow in E. discriminate.
    + intros [E _]. congruence.
Qed.

(** ** get_devices *)

Lemma get_devices_lookup count i :
  (i < Z.to_nat count)%nat ->
  get_devices count !! i = Some ("pluto=" +:+ pretty (Z.of_nat i)).
Proof.
  intros Hi. unfold get_devices.
  change (map ?f ?l) with (f <$> l).
  rewrite list_lookup_fmap, lookup_seq_lt by exact Hi. reflexivity.
Qed.

(** X13.  [get_devices] returns one argument string per device the driver
    counts, the [i]-th being ["pluto="] followed by [i] in decimal; the
    strings are pairwise distinct, and there is none when the driver counts
    no device. *)
Theorem get_devices_enumerates (count : Z) :
  0 <= count ->
  Z.of_nat (length (get_devices count)) = count
  /\ (forall i, 0 <= i < count ->
        get_devices count !! Z.to_nat i = Some ("pluto=" +:+ pretty i))
  /\ NoDup (get_devices count)
  /\ (count = 0 -> get_devices count = []).
Proof.
  intros Hc. split; [|split; [|split]].
  - unfold get_devices. rewrite length_map, length_seq. lia.
  - intros i Hi. rewrite get_devices_lookup by lia.
    rewrite Z2Nat.id by lia. reflexivity.
  - apply NoDup_alt. intros i j x Hi Hj.
    pose proof (lookup_lt_Some _ _ _ Hi) as Li.
    pose proof (lookup_lt_Some _ _ _ Hj) as Lj.
    unfold get_devices in Li, Lj. rewrite length_map, length_seq in Li, Lj.
    rewrite get_devices_lookup in Hi, Hj by assumption.
    rewrite <- Hj in Hi. injection Hi as Hi.
    apply append_same_prefix in Hi. apply (inj pretty) in Hi. lia.
  - intros ->. reflexivity.
Qed.

(** ** The end of the asynchronous read, and restarts *)

(** X14.  When the asynchronous read returns, [plutosdr_wait] clears
    [_running] and leaves the ring and the consumer cursor as they are; it
    writes a line to [cerr] exactly when the status is not zero, and the
    next call of [work] signals end-of-stream. *)
Theorem plutosdr_wait_reports_nonzero_status
    (ret : Z) (s : pluto_source_c) (n : Z) :
  _running (plutosdr_wait ret s) = false
  /\ set_running false s = plutosdr_wait 0 s
  /\ (cerr (plutosdr_wait ret s) = cerr s <-> ret = 0)
  /\ (ret <> 0 ->
      cerr (plutosdr_wait ret s)
      = cerr s +:+ "rtlsdr_read_async returned with " +:+ pretty ret +:+ endl)
  /\ pending_bytes (plutosdr_wait ret s) = pending_bytes s
  /\ _buf_offset (plutosdr_wait ret s) = _buf_offset s
  /\ work n (plutosdr_wait ret s)
     = Some (Returned WORK_DONE [], plutosdr_wait ret s).
Proof.
  assert (Hr : _running (plutosdr_wait ret s) = false).
  { unfold plutosdr_wait. destruct (negb (ret =? 0)); reflexivity. }
  split; [exact Hr|]. split; [reflexivity|].
  split; [|split; [|split; [|split]]].
  - unfold plutosdr_wait. destruct (Z.eqb_spec ret 0) as [E|E]; cbn [negb].
    + split; [intros _; exact E|reflexivity].
    + split; [|contradiction]. cbn [cerr print set_running].
      intros H. apply append_grows in H. discriminate.
  - intros Hnz. unfold plutosdr_wait.
    destruct (Z.eqb_spec ret 0); [contradiction|reflexivity].
  - unfold plutosdr_wait. destruct (negb (ret =? 0)); reflexivity.
  - unfold plutosdr_wait. destruct (negb (ret =? 0)); reflexivity.
  - apply work_not_running, Hr.
Qed.

(** X15.  [start] does not reset the ring: after [stop] and a new [start],
    with at least three blocks still buffered, [work] resumes at the old
    cursor and first returns the samples that were buffered before the
    stop. *)
Theorem restart_resumes_buffered_samples (s : pluto_source_c) (n : Z) :
  well_formed s -> 3 <= _buf_used s -> 0 <= n < 2 ^ 31 ->
  let k := Z.min n (samples_buffered s) in
  exists s',
    work n (stop s).2 = Some (Returned WORK_DONE [], (stop s).2)
    /\ work n (start (stop s).2).2
       = Some (Returned k (convert_bytes (take (Z.to_nat (4 * k)) (pending_bytes s))),
               s')
    /\ pending_bytes s' = drop (Z.to_nat (4 * k)) (pending_bytes s).
Proof.
  intros W Hu Hn k.
  assert (W1 : well_formed (start (stop s).2).2).
  { apply set_running_well_formed, set_running_well_formed, W. }
  destruct (work_drains n (start (stop s).2).2 W1 Hn Hu eq_refl)
    as [s' [Hw [_ [Hp _]]]].
  exists s'. split; [apply work_not_running; reflexivity|].
  split; [exact Hw|exact Hp].
Qed.

(** ** The further properties on the example configuration *)

Example example_lapped_counters :
  (_buf_head example_lapped, _buf_used example_lapped,
   _buf_offset example_lapped, _samp_avail example_lapped) = (0, 4, 10, 118).
Proof. by_computation. Qed.

Lemma ring_keeps_latest_blocks_witness :
  exists s',
    deliver [example_block x04; example_block x05; example_block x06] example_primed
    = Some s'
    /\ filled_blocks s'
       = latest 4 (filled_blocks example_primed
                   ++ [example_block x04; example_block x05; example_block x06])
    /\ cerr s' = cerr example_primed +:+ "OO".
Proof.
  destruct (ring_keeps_latest_blocks example_primed
              [example_block x04; example_block x05; example_block x06])
    as (s' & H1 & H2 & _ & _ & H3 & _).
  - apply well_formedb_true. by_computation.
  - apply Z.leb_le. by_computation.
  - repeat constructor.
  - exists s'. split; [exact H1|]. split; [exact H2|exact H3].
Defined.

Lemma short_delivery_keeps_stale_tail_witness :
  exists s',
    plutosdr_callback [x01; x02] example_primed = Some s'
    /\ _buf_used s' = _buf_used example_primed + 1.
Proof.
  assert (E : exists s', plutosdr_callback [x01; x02] example_primed = Some s').
  { apply callback_defined; [apply well_formedb_true; by_computation|].
    apply Z.leb_le. by_computation. }
  destruct E as [s' E]. exists s'. split; [exact E|].
  destruct (short_delivery_keeps_stale_tail example_primed s' [x01; x02])
    as (_ & _ & H).
  - apply well_formedb_true. by_computation.
  - apply Z.leb_le. by_computation.
  - apply Z.ltb_lt. by_computation.
  - apply Z.leb_le. by_computation.
  - exact E.
  - exact H.
Defined.

Lemma overflow_discards_oldest_pending_bytes_witness :
  exists s',
    plutosdr_callback (example_block x05) example_lapped = Some s'
    /\ pending_bytes s'
       = drop (Z.to_nat (_buf_len example_lapped)) (pending_bytes example_lapped)
         ++ example_block x05.
Proof.
  assert (E : exists s', plutosdr_callback (example_block x05) example_lapped = Some s').
  { apply callback_defined; [apply well_formedb_true; by_computation|].
    apply Z.leb_le. by_computation. }
  destruct E as [s' E]. exists s'. split; [exact E|].
  destruct (overflow_discards_oldest_pending_bytes example_lapped s' (example_block x05))
    as (H & _).
  - apply well_formedb_true. by_computation.
  - apply Z.leb_le. by_computation.
  - by_computation.
  - apply Z.leb_le. by_computation.
  - by_computation.
  - exact E.
  - exact H.
Defined.

Lemma push_overruns_iff_too_long_witness :
  plutosdr_callback_push (example_block x05 ++ [x00]) example_primed = None
  <-> _buf_len example_primed
      < Z.of_nat (length (example_block x05 ++ [x00])).
Proof.
  apply (push_overruns_iff_too_long example_primed).
  apply well_formedb_true. by_computation.
Defined.

Lemma work_serves_request_or_drains_witness :
  exists ret out s',
    work 1000 example_primed = Some (Returned ret out, s')
    /\ (samples_buffered example_primed <= 1000 ->
        ret = samples_buffered example_primed /\ _buf_used s' = 0).
Proof.
  destruct (work_serves_request_or_drains example_primed 1000)
    as (ret & out & s' & Hw & _ & Hd & _).
  - apply well_formedb_true. by_computation.
  - by_computation.
  - apply Z.leb_le. by_computation.
  - lia.
  - exists ret, out, s'. split; [exact Hw|].
    intros Hle. destruct (Hd Hle) as (H1 & H2 & _). split; assumption.
Defined.

Lemma work_split_request_witness :
  exists k2 out2 s2,
    work 50 (consume 100 example_filled) = Some (Returned k2 out2, s2)
    /\ work (100 + 50) example_filled
       = Some (Returned (100 + k2)
                 (convert_bytes (take 400 (pending_bytes example_filled)) ++ out2),
               s2).
Proof.
  apply (work_split_request example_filled (consume 100 example_filled) 100 50 100).
  - apply well_formedb_true. by_computation.
  - by_computation.
  - apply Z.leb_le. by_computation.
  - lia.
  - lia.
  - lia.
  - by_computation.
  - apply Z.leb_le. by_computation.
Defined.

Lemma work_stays_in_bounds_witness :
  exists r s',
    work 300 example_lapped = Some (r, s')
    /\ _buf s' = _buf example_lapped
    /\ _buf_used s' <= _buf_used example_lapped.
Proof.
  destruct (work_stays_in_bounds example_lapped 300)
    as (r & s' & Hw & Hb & _ & _ & Hu & _).
  - apply well_formedb_true. by_computation.
  - lia.
  - exists r, s'. split; [exact Hw|]. split; [exact Hb|exact Hu].
Defined.

Lemma stopped_stream_yields_nothing_witness :
  exists s' t',
    run [Ev_work 10; Ev_callback (example_block x07); Ev_read_async_return 3;
         Ev_work 500; Ev_stop; Ev_work 1]
        (example_stopped, tally0) = Some (s', t')
    /\ _running s' = false
    /\ produced t' = produced tally0
    /\ emitted t' = emitted tally0.
Proof.
  apply (stopped_stream_yields_nothing example_stopped tally0).
  - apply well_formedb_true. by_computation.
  - by_computation.
  - apply admissibleb_true. by_computation.
  - by_computation.
Defined.

Lemma skip_window_not_rearmed_witness :
  exists s' t',
    run [Ev_stop; Ev_work 5; Ev_start; Ev_callback (example_block x08);
         Ev_callback (example_block x09)]
        (example_primed, tally0) = Some (s', t')
    /\ _skipped s' = BUF_SKIP
    /\ pushed t'
       = pushed tally0
         + deliveries [Ev_stop; Ev_work 5; Ev_start; Ev_callback (example_block x08);
                       Ev_callback (example_block x09)].
Proof.
  apply (skip_window_not_rearmed example_primed tally0).
  - apply well_formedb_true. by_computation.
  - by_computation.
  - apply admissibleb_true. by_computation.
Defined.

Lemma ctor_lut_entries_exact_witness :
  length (_lut example_fresh) = 256%nat
  /\ Float32.denotes (lut_entry 255) (lut_value 255)
  /\ (-1 < lut_value 255)%Q /\ (lut_value 255 < 1)%Q.
Proof.
  apply (ctor_lut_entries_exact decimal_uint example_dict 0 example_fresh 255).
  - by_computation.
  - by_computation.
Defined.

Example example_lut_ends :
  (lut_entry 0, lut_entry 127, lut_entry 128, lut_entry 255)
  = (S754_finite true 16698573 (-24), S754_finite true 13421824 (-32),
     S754_finite false 10066304 (-31), S754_finite false 16724787 (-24)).
Proof. by_computation. Qed.

Lemma ctor_reports_non_default_sizes_witness :
  (cerr example_fresh = "Using device #0" +:+ endl
   <-> (_buf_num example_fresh = 15 /\ _buf_len example_fresh = 819200))
  /\ (cerr example_fresh = "Using device #0" +:+ endl
      \/ cerr example_fresh
         = "Using device #0" +:+ endl +:+ "Using " +:+ pretty (_buf_num example_fresh)
           +:+ " buffers of size " +:+ pretty (_buf_len example_fresh)
           +:+ "." +:+ endl).
Proof.
  apply (ctor_reports_non_default_sizes decimal_uint example_dict 0 example_fresh).
  by_computation.
Defined.

Lemma get_devices_enumerates_witness :
  Z.of_nat (length (get_devices 3)) = 3
  /\ (forall i, 0 <= i < 3 ->
        get_devices 3 !! Z.to_nat i = Some ("pluto=" +:+ pretty i))
  /\ NoDup (get_devices 3)
  /\ (3 = 0 -> get_devices 3 = []).
Proof. apply (get_devices_enumerates 3). lia. Defined.

Example example_get_devices :
  get_devices 3 = ["pluto=0"; "pluto=1"; "pluto=2"]%string.
Proof. by_computation. Qed.

Lemma restart_resumes_buffered_samples_witness :
  exists s',
    work 64 (stop example_primed).2
    = Some (Returned WORK_DONE [], (stop example_primed).2)
    /\ work 64 (start (stop example_primed).2).2
       = Some (Returned (Z.min 64 (samples_buffered example_primed))
                 (convert_bytes
                    (take (Z.to_nat (4 * Z.min 64 (samples_buffered example_primed)))
                       (pending_bytes example_primed))),
               s').
Proof.
  destruct (restart_resumes_buffered_samples example_primed 64)
    as (s' & H1 & H2 & _).
  - apply well_formedb_true. by_computation.
  - apply Z.leb_le. by_computation.
  - lia.
  - exists s'. split; [exact H1|exact H2].
Defined.
